(** * Cameraultra: the listing evaluation pipeline of [monitor.py]

    A shallow embedding of the pure core of [src/monitor.py]: the title
    heuristics ([hard_reject], [extract_qty], [score_listing]), the seen cache
    ([load_seen], [save_seen]), the term rotation ([pick_group]) and the
    per-run loop of [main], followed by the properties of the specification.

    Modelling conventions.
    - A Python [str] is a Rocq [string]; titles are read as ASCII text
      ([str.lower], [\b], [\d] and [\s] are modelled on the ASCII range, a
      byte above 127 is left alone by [lower] and belongs to no class).
      Python's own are Unicode-aware and agree with these on ASCII text
      only, so a statement that depends on what a class or the lowering
      does to a character is made for [plain] titles, the ASCII ones.
    - The patterns given to [re.search] are terms of [regex], run by a
      backtracking matcher that tries alternatives and repetitions in the
      order Python's [re] does (leftmost start, greedy, first alternative
      first).
    - A Python [set] is the list of its elements in insertion order; the
      order in which [list(seen)] enumerates it is a parameter, since the
      language promises none.
    - An exception is a [Raise] outcome; [try/except] maps it to a value. *)

From Stdlib Require Import ZArith QArith Qround List Bool Ascii String Lia.
From Stdlib Require Import Permutation DecimalString DecimalN DecimalZ.
Import ListNotations.
Set Warnings "-register-all,-comment-terminator-in-string".
Open Scope string_scope.
Open Scope Z_scope.

(** ** Text: [str.lower], [in], character classes *)

Module Text.

Definition code (c : ascii) : N := N_of_ascii c.

Definition between (lo hi : N) (c : ascii) : bool :=
  (N.leb lo (code c) && N.leb (code c) hi)%bool.

Definition is_upper (c : ascii) : bool := between 65 90 c.
Definition is_lower (c : ascii) : bool := between 97 122 c.

(** [\d] *)
Definition is_digit (c : ascii) : bool := between 48 57 c.

(** [\w]: letters, digits and the underscore *)
Definition is_word (c : ascii) : bool :=
  (is_upper c || is_lower c || is_digit c || N.eqb (code c) 95)%bool.

(** [\s]: tab, newline, vertical tab, form feed, carriage return, the four
    separators 0x1c..0x1f, and the space *)
Definition is_space (c : ascii) : bool :=
  (between 9 13 c || between 28 31 c || N.eqb (code c) 32)%bool.

Definition lower_char (c : ascii) : ascii :=
  if is_upper c then ascii_of_N (code c + 32) else c.

(** [s.lower()] *)
Fixpoint lower (s : string) : string :=
  match s with
  | EmptyString => EmptyString
  | String c s' => String (lower_char c) (lower s')
  end.

(** [w in t] on strings: [w] occurs in [t] as a contiguous substring *)
Fixpoint contains (w t : string) : bool :=
  (prefix w t ||
   match t with
   | EmptyString => false
   | String _ t' => contains w t'
   end)%bool.

(** [s] with its prefix [w] removed, when it starts with [w] *)
Fixpoint strip (w s : string) : option string :=
  match w, s with
  | EmptyString, _ => Some s
  | String a w', String b s' => if Ascii.eqb a b then strip w' s' else None
  | String _ _, EmptyString => None
  end.

(** the last character of [w], or [p] when [w] is empty *)
Fixpoint last_char (p : option ascii) (w : string) : option ascii :=
  match w with
  | EmptyString => p
  | String a w' => last_char (Some a) w'
  end.

(** the first [n] characters of [s] *)
Fixpoint take (n : nat) (s : string) : string :=
  match n, s with
  | S n', String a s' => String a (take n' s')
  | _, _ => EmptyString
  end.

(** [int(s)] for a string of decimal digits; anything else (the empty
    string included) is a [ValueError], here [None] *)
Fixpoint digits_value (acc : Z) (s : string) : option Z :=
  match s with
  | EmptyString => Some acc
  | String c s' =>
      if is_digit c
      then digits_value (10 * acc + Z.of_N (code c - 48)) s'
      else None
  end.

Definition py_int (s : string) : option Z :=
  match s with
  | EmptyString => None
  | _ => digits_value 0 s
  end.

End Text.

(** ** Regular expressions as [re.search] runs them *)

Module Re.
Import Text.

Inductive cclass := Digit | Space.

Definition in_class (k : cclass) (c : ascii) : bool :=
  match k with
  | Digit => is_digit c
  | Space => is_space c
  end.

(** The fragment of Python's pattern language the script uses. *)
Inductive regex :=
| Lit (w : string)                              (* literal text *)
| WordB                                         (* \b *)
| Rep (k : cclass) (mn : nat) (mx : option nat) (* "\d{1,4}", "\s*", "\s+": greedy *)
| Seq (a b : regex)
| Alt (a b : regex)                             (* a|b, [a] tried first *)
| Opt (a : regex)                               (* "(?:a)?", greedy *)
| Grp (a : regex).                              (* "(a)": capturing group 1 *)

(** [w1|w2|...] *)
Fixpoint any_of (w : string) (ws : list string) : regex :=
  match ws with
  | [] => Lit w
  | w' :: ws' => Alt (Lit w) (any_of w' ws')
  end.

Definition word_opt (p : option ascii) : bool :=
  match p with
  | Some c => is_word c
  | None => false
  end.

Definition head (s : string) : option ascii :=
  match s with
  | EmptyString => None
  | String c _ => Some c
  end.

(** [\b] between the character before the cursor and the one after it *)
Definition at_boundary (p : option ascii) (s : string) : bool :=
  xorb (word_opt p) (word_opt (head s)).

(** A match in progress: the character before the cursor, the text after it
    and what group 1 holds.  [None] is a failed match, [Some g] a successful
    one with group 1 equal to [g]. *)
Definition cont := option ascii -> string -> option string -> option (option string).

(** greedy repetition of a class: as many as possible first, one fewer on
    backtracking; [fuel] bounds the number still allowed *)
Fixpoint rep (c : cclass) (mn fuel : nat) (p : option ascii) (s : string)
    (g : option string) (k : cont) : option (option string) :=
  let stop := if Nat.eqb mn 0 then k p s g else None in
  match fuel, s with
  | S fuel', String a s' =>
      if in_class c a then
        match rep c (Nat.pred mn) fuel' (Some a) s' g k with
        | Some r => Some r
        | None => stop
        end
      else stop
  | _, _ => stop
  end.

Fixpoint run (r : regex) (p : option ascii) (s : string) (g : option string)
    (k : cont) : option (option string) :=
  match r with
  | Lit w =>
      match strip w s with
      | Some s' => k (last_char p w) s' g
      | None => None
      end
  | WordB => if at_boundary p s then k p s g else None
  | Rep c mn mx =>
      rep c mn (match mx with Some m => m | None => String.length s end) p s g k
  | Seq a b => run a p s g (fun p' s' g' => run b p' s' g' k)
  | Alt a b =>
      match run a p s g k with
      | Some res => Some res
      | None => run b p s g k
      end
  | Opt a =>
      match run a p s g k with
      | Some res => Some res
      | None => k p s g
      end
  | Grp a =>
      run a p s g
        (fun p' s' _ => k p' s' (Some (take (String.length s - String.length s') s)))
  end.

Definition accept : cont := fun _ _ g => Some g.

(** the scan of [re.search]: the leftmost start position that matches *)
Fixpoint search_from (r : regex) (p : option ascii) (s : string) : option (option string) :=
  match run r p s None accept with
  | Some g => Some g
  | None =>
      match s with
      | EmptyString => None
      | String a s' => search_from r (Some a) s'
      end
  end.

(** [re.search(r, s)]: [None], or the match object reduced to its group 1 *)
Definition search (r : regex) (s : string) : option (option string) :=
  search_from r None s.

Definition found (r : regex) (s : string) : bool :=
  match search r s with
  | Some _ => true
  | None => false
  end.

(** *** Shapes of matches, for the statements below *)

Fixpoint all_in (c : cclass) (s : string) : bool :=
  match s with
  | EmptyString => true
  | String a s' => (in_class c a && all_in c s')%bool
  end.

(** group 1 of a pattern whose only group is a run of one to four digits *)
Definition short_number (g : option string) : Prop :=
  match g with
  | None => True
  | Some d => all_in Digit d = true /\ (1 <= String.length d <= 4)%nat
  end.

(** [d] stands somewhere in [text] *)
Definition occurs (d text : string) : Prop :=
  exists pre post, text = pre ++ d ++ post.

(** [s] is what is left of [text] at some cursor *)
Definition ends_with (s text : string) : Prop :=
  exists pre, text = pre ++ s.

(** group 1 holds nothing, or a short number that stands in [text] *)
Definition read_from (text : string) (g : option string) : Prop :=
  match g with
  | None => True
  | Some d => short_number (Some d) /\ occurs d text
  end.

(** every group of the pattern is a run of one to four digits *)
Fixpoint digit_groups (r : regex) : bool :=
  match r with
  | Grp (Rep Digit mn (Some mx)) => (Nat.leb 1 mn && Nat.leb mx 4)%bool
  | Grp _ => false
  | Seq a b | Alt a b => (digit_groups a && digit_groups b)%bool
  | Opt a => digit_groups a
  | _ => true
  end.

End Re.

(** ** The configuration tables of [monitor.py] *)

Definition BLOCKLIST : list string :=
  [ "junk"; "spares"; "broken"; "repair"; "parts only"; "accessories only";
    "camera case lot"; "camera cases lot"; "camera bag lot"; "camera bags lot" ].

Definition BRANDS : list string :=
  [ "nikon"; "canon"; "olympus"; "pentax"; "konica"; "minolta";
    "sony"; "panasonic"; "fujifilm"; "ricoh"; "casio"; "kodak";
    "polaroid"; "leica"; "hasselblad"; "mamiya"; "contax"; "yashica";
    "zenit"; "praktica"; "chinon"; "rollei"; "agfa" ].

Definition UK_HINTS : list string :=
  [ "job lot"; "joblot"; "bundle"; "collection"; "mixed lot"; "mixed";
    "house clearance"; "loft find"; "garage find"; "estate"; "charity";
    "vintage"; "old"; "retro" ].

Definition BIG_LOT_HINTS : list string :=
  [ "huge lot"; "massive lot"; "large lot"; "big lot"; "bulk";
    "box of"; "crate of"; "bag of"; "bundle of" ].

(** a [dict], enumerated by [.items()] in the order it was written *)
Definition WORD_NUMBERS : list (string * Z) :=
  [ ("one", 1); ("two", 2); ("three", 3); ("four", 4); ("five", 5);
    ("six", 6); ("seven", 7); ("eight", 8); ("nine", 9); ("ten", 10);
    ("twenty", 20); ("thirty", 30); ("forty", 40); ("fifty", 50);
    ("sixty", 60); ("seventy", 70); ("eighty", 80); ("ninety", 90);
    ("hundred", 100); ("hundreds", 100) ].

Definition SEARCH_GROUPS : list (list string) :=
  [ [ "camera job lot"; "cameras job lot"; "joblot cameras"; "job lot cameras";
      "camera lot"; "cameras lot"; "camera bundle"; "camera bundles";
      "camera collection"; "camera collections"; "mixed camera lot"; "mixed cameras";
      "house clearance cameras"; "loft find cameras"; "garage find cameras";
      "vintage camera lot"; "old camera lot"; "retro camera lot" ];
    [ "digital camera lot"; "digital cameras lot"; "compact camera lot"; "compact cameras lot";
      "digicam lot"; "digicams lot"; "point and shoot lot"; "point and shoot camera lot";
      "pocket camera lot"; "small camera lot"; "bridge camera lot"; "zoom camera lot";
      "early digital camera lot"; "2000s digital camera lot"; "vintage digital camera lot" ];
    [ "film camera lot"; "film cameras lot"; "35mm camera lot"; "35mm cameras lot";
      "slr film camera lot"; "rangefinder camera lot"; "tlr camera lot";
      "medium format camera lot"; "6x6 camera lot"; "instant camera lot"; "polaroid camera lot";
      "vintage film camera lot"; "old film cameras lot" ];
    [ "dslr camera lot"; "dslr cameras lot"; "slr camera lot"; "slr cameras lot";
      "digital slr lot"; "camera bodies lot"; "camera body lot";
      "nikon dslr lot"; "canon dslr lot"; "pentax dslr lot" ];
    [ "nikon camera lot"; "canon camera lot"; "olympus camera lot"; "pentax camera lot";
      "konica camera lot"; "minolta camera lot"; "fujifilm camera lot"; "sony camera lot";
      "panasonic camera lot"; "ricoh camera lot"; "kodak camera lot"; "casio camera lot";
      "polaroid lot cameras"; "leica camera lot" ];
    [ "canon powershot lot"; "nikon coolpix lot"; "sony cybershot lot";
      "fujifilm finepix lot"; "panasonic lumix lot"; "olympus stylus lot"; "olympus mju lot";
      "ricoh caplio lot"; "kodak easyshare lot"; "casio exilim lot" ];
    [ "huge camera lot"; "massive camera lot"; "large camera lot"; "big camera lot";
      "bulk cameras lot"; "box of cameras"; "crate of cameras"; "bag of cameras";
      "bundle of cameras"; "job lot of cameras" ] ].

(** ** The patterns of [extract_qty] and [score_listing] *)

Module Patterns.
Import Re.

(** "(?:camera|cameras|camcorder|camcorders)" *)
Definition NOUN : regex := any_of "camera" ["cameras"; "camcorder"; "camcorders"].

Definition spaces0 : regex := Rep Space 0 None.          (* "\s*" *)
Definition spaces1 : regex := Rep Space 1 None.          (* "\s+" *)
Definition digits14 : regex := Grp (Rep Digit 1 (Some 4%nat)). (* "(\d{1,4})" *)

(** "\b(\d{1,4})\s*(?:x\s*)?(?:camera|cameras|camcorder|camcorders)\b" *)
Definition COUNT_NOUN : regex :=
  Seq WordB (Seq digits14 (Seq spaces0 (Seq (Opt (Seq (Lit "x") spaces0)) (Seq NOUN WordB)))).

(** "\b(?:lot|job lot|joblot|bundle|box|crate|bag)\s+of\s+(\d{1,4})\b" *)
Definition LOT_OF : regex :=
  Seq WordB
    (Seq (any_of "lot" ["job lot"; "joblot"; "bundle"; "box"; "crate"; "bag"])
       (Seq spaces1 (Seq (Lit "of") (Seq spaces1 (Seq digits14 WordB))))).

(** "\b{re.escape(w)}\s+(?:camera|cameras|camcorder|camcorders)\b", an f-string;
    [re.escape] leaves the letters of a number word as they are *)
Definition WORD_NOUN (w : string) : regex :=
  Seq WordB (Seq (Lit w) (Seq spaces1 (Seq NOUN WordB))).

(** "\bone\s+hundred\s+(?:camera|cameras|camcorder|camcorders)\b" *)
Definition ONE_HUNDRED : regex :=
  Seq WordB (Seq (Lit "one") (Seq spaces1 (Seq (Lit "hundred") (Seq spaces1 (Seq NOUN WordB))))).

(** "\b(camera|cameras|compact|digicam|dslr|slr|tlr|rangefinder|film|35mm|instant|camcorder)\b" *)
Definition KINDS : regex :=
  Seq WordB
    (Seq (Grp (any_of "camera"
                 ["cameras"; "compact"; "digicam"; "dslr"; "slr"; "tlr";
                  "rangefinder"; "film"; "35mm"; "instant"; "camcorder"]))
       WordB).

(** "\b(shutter working|shutters working|tested working|fully working)\b" *)
Definition WORKING : regex :=
  Seq WordB
    (Seq (Grp (any_of "shutter working"
                 ["shutters working"; "tested working"; "fully working"]))
       WordB).

End Patterns.

(** ** Helpers: [hard_reject], [extract_qty], [score_listing] *)

Import Text.

Definition hard_reject (title : string) : bool :=
  let t := lower title in
  existsb (fun w => contains w t) BLOCKLIST.

(** [int(m.group(1))] under [try: ... except: pass]: the value, or [None]
    when [int] raises and the next rule is tried *)
Definition group_int (m : option string) : option Z :=
  match m with
  | Some g => py_int g
  | None => None
  end.

(** the loop over [WORD_NUMBERS.items()]: the value of the first word whose
    pattern is found *)
Fixpoint first_word (t : string) (ws : list (string * Z)) : option Z :=
  match ws with
  | [] => None
  | (w, val) :: ws' =>
      if Re.found (Patterns.WORD_NOUN w) t then Some val else first_word t ws'
  end.

Definition qty_words (t : string) : option Z :=
  match first_word t WORD_NUMBERS with
  | Some val => Some val
  | None => if Re.found Patterns.ONE_HUNDRED t then Some 100 else None
  end.

Definition qty_lot_of (t : string) : option Z :=
  match Re.search Patterns.LOT_OF t with
  | Some m =>
      match group_int m with
      | Some n => Some n
      | None => qty_words t
      end
  | None => qty_words t
  end.

(** [None] is Python's [None], "unknown" in the specification *)
Definition extract_qty (title : string) : option Z :=
  let t := lower title in
  match Re.search Patterns.COUNT_NOUN t with
  | Some m =>
      match group_int m with
      | Some n => Some n
      | None => qty_lot_of t
      end
  | None => qty_lot_of t
  end.

(** [for w in hints: if w in t: score += pts] *)
Definition add_hints (pts : Z) (t : string) (hints : list string) (score : Z) : Z :=
  fold_left (fun sc w => if contains w t then sc + pts else sc) hints score.

(** the block under [# cantitate] *)
Definition add_qty (qty : option Z) (score : Z) : Z :=
  match qty with
  | None => score
  | Some q =>
      let score := score + 2 in
      let score := if 20 <=? q then score + 3 else score in
      let score := if 50 <=? q then score + 4 else score in
      let score := if 100 <=? q then score + 5 else score in
      score
  end.

Definition REJECTED : Z := -999.

Definition score_listing (title : string) : Z :=
  let t := lower title in
  if hard_reject t then REJECTED else
  let score := 0 in
  let score := if Re.found Patterns.KINDS t then score + 2 else score in
  let score := if existsb (fun b => contains b t) BRANDS then score + 2 else score in
  let score := add_hints 1 t UK_HINTS score in
  let score := add_hints 2 t BIG_LOT_HINTS score in
  let score := add_qty (extract_qty title) score in
  let score := if Re.found Patterns.WORKING t then score + 2 else score in
  score.

(** ** Python values, sets and exceptions *)

Module Py.

(** What [json.load] returns; a number is modelled by an integer. *)
Inductive value :=
| VNone
| VBool (b : bool)
| VInt (n : Z)
| VStr (s : string)
| VList (l : list value)
| VDict (d : list (string * value)).

(** The outcome of an expression that may raise. *)
Inductive outcome (A : Type) :=
| Ok (a : A)
| Raise.
Arguments Ok {A} a.
Arguments Raise {A}.

Definition bind {A B} (x : outcome A) (f : A -> outcome B) : outcome B :=
  match x with
  | Ok a => f a
  | Raise => Raise
  end.

(** [try: return e / except Exception: return d] *)
Definition try_except {A} (e : outcome A) (d : A) : A :=
  match e with
  | Ok a => a
  | Raise => d
  end.

(** lists and dicts are unhashable *)
Definition hashable (v : value) : bool :=
  match v with
  | VList _ | VDict _ => false
  | _ => true
  end.

Definition as_int (v : value) : option Z :=
  match v with
  | VBool b => Some (if b then 1 else 0)
  | VInt n => Some n
  | _ => None
  end.

(** [==] on hashable values: [True == 1] and [False == 0] *)
Definition eqb (a b : value) : bool :=
  match a, b with
  | VNone, VNone => true
  | VStr s, VStr s' => String.eqb s s'
  | _, _ =>
      match as_int a, as_int b with
      | Some n, Some n' => Z.eqb n n'
      | _, _ => false
      end
  end.

(** A [set]: its elements, oldest insertion first, none twice. *)
Definition pyset := list value.

(** [x in s] *)
Definition mem (x : value) (s : pyset) : bool := existsb (eqb x) s.

(** [s.add(x)] *)
Definition add (x : value) (s : pyset) : pyset :=
  if mem x s then s else (s ++ [x])%list.

(** the characters of a string, each a string of length one *)
Fixpoint chars (s : string) : list value :=
  match s with
  | EmptyString => []
  | String c s' => VStr (String c EmptyString) :: chars s'
  end.

(** the elements of [l] added to [s] one after the other *)
Definition fill (l : list value) (s : pyset) : pyset :=
  fold_left (fun s x => add x s) l s.

(** [set(v)]: the elements of a list, the characters of a string or the keys
    of a dict; [TypeError] for anything else and for an unhashable element *)
Definition set_of (v : value) : outcome pyset :=
  match v with
  | VList l => if forallb hashable l then Ok (fill l []) else Raise
  | VStr s => Ok (fill (chars s) [])
  | VDict d => Ok (fill (map (fun kv => VStr (fst kv)) d) [])
  | _ => Raise
  end.

Fixpoint lookup (k : string) (d : list (string * value)) : option value :=
  match d with
  | [] => None
  | (k', v) :: d' => if String.eqb k k' then Some v else lookup k d'
  end.

(** [v.get(k, default)]: [AttributeError] unless [v] is a dict *)
Definition get (v : value) (k : string) (default : value) : outcome value :=
  match v with
  | VDict d =>
      match lookup k d with
      | Some x => Ok x
      | None => Ok default
      end
  | _ => Raise
  end.

(** [l[-n:]] for [n > 0] *)
Definition last_n {A} (n : nat) (l : list A) : list A :=
  skipn (List.length l - n) l.

End Py.

Module PyNotations.
Notation "x <- e ;; k" := (Py.bind e (fun x => k))
  (at level 61, e at next level, right associativity).
End PyNotations.
Import PyNotations.

(** ** The seen cache *)

(** What is at [SEEN_PATH] when [load_seen] runs: nothing, a file that
    cannot be opened, decoded or parsed, or a JSON document. *)
Inductive seen_file :=
| Missing
| Corrupt
| Json (v : Py.value).

Definition SEEN_CAP : nat := 3000.

(** [json.load(f)] with the file open *)
Definition json_load (f : seen_file) : Py.outcome Py.value :=
  match f with
  | Json v => Py.Ok v
  | _ => Py.Raise
  end.

Definition load_seen (f : seen_file) : Py.pyset :=
  match f with
  | Missing => []
  | _ =>
      Py.try_except
        (doc <- json_load f ;;
         ids <- Py.get doc "seen_ids" (Py.VList []) ;;
         Py.set_of ids)
        []
  end.

Section SetOrder.

(** [list(seen)]: the elements of the set in the order the interpreter
    enumerates them, a function of the insertions made. *)
Variable set_order : Py.pyset -> list Py.value.

(** the list written under [seen_ids] *)
Definition saved_ids (seen : Py.pyset) : list Py.value :=
  Py.last_n SEEN_CAP (set_order seen).

Definition save_seen (seen : Py.pyset) : seen_file :=
  Json (Py.VDict [("seen_ids", Py.VList (saved_ids seen))]).

End SetOrder.

(** ** Term rotation *)

(** [pick_group] as a function of the clock reading [now = time.time()], a
    number of seconds taken as an exact rational: [int(now // 300) % len(SEARCH_GROUPS)] *)
Definition pick_group (now : Q) : Z :=
  Qfloor (now / 300) mod Z.of_nat (List.length SEARCH_GROUPS).

(** ** The run: the loops and the ranking of [main] *)

(** An item of [fetch_search]: the dict with keys id, title, price, link. *)
Record Listing := {
  it_id : string;
  it_title : string;
  it_price : string;
  it_link : string
}.

(** What [fetch_search(url)] gave for one url: the items, or [None] when it
    raised and the url was skipped. *)
Definition fetched := option (list Listing).

Definition alert : Type := Z * Listing.

(** the body of [for it in results] *)
Definition visit (st : Py.pyset * list alert) (it : Listing) : Py.pyset * list alert :=
  let (seen, alerts) := st in
  if Py.mem (Py.VStr (it_id it)) seen then st
  else
    let seen := Py.add (Py.VStr (it_id it)) seen in
    let s := score_listing (it_title it) in
    if 3 <=? s then (seen, (alerts ++ [(s, it)])%list) else (seen, alerts).

(** the body of [for url in urls] *)
Definition scan (st : Py.pyset * list alert) (r : fetched) : Py.pyset * list alert :=
  match r with
  | None => st
  | Some results => fold_left visit results st
  end.

Definition collect (seen : Py.pyset) (pages : list fetched) : Py.pyset * list alert :=
  fold_left scan pages (seen, []).

(** [alerts.sort(key=lambda x: x[0], reverse=True)]: Python's sort is stable,
    also with [reverse=True]; insertion keeps an item in front of the later
    items of the same score. *)
Fixpoint insert_desc (x : alert) (l : list alert) : list alert :=
  match l with
  | [] => [x]
  | y :: l' => if fst x <? fst y then y :: insert_desc x l' else x :: l
  end.

Definition sort_desc (l : list alert) : list alert := fold_right insert_desc [] l.

(** [alerts.sort(...); alerts = alerts[:7]] *)
Definition rank (alerts : list alert) : list alert := firstn 7 (sort_desc alerts).

Section Run.

Variable set_order : Py.pyset -> list Py.value.

(** One run of [main] on the file found at [SEEN_PATH] and the results of the
    fetches, one per url in order: the file it leaves and the alerts it sends. *)
Definition main (file : seen_file) (pages : list fetched) : seen_file * list alert :=
  let seen := load_seen file in
  let (seen, alerts) := collect seen pages in
  (save_seen set_order seen, rank alerts).

(** Successive runs, each reading the file the one before left: the alerts
    of each run. *)
Fixpoint runs (file : seen_file) (days : list (list fetched)) : list (list alert) :=
  match days with
  | [] => []
  | pages :: days' =>
      let (file', sent) := main file pages in
      sent :: runs file' days'
  end.

End Run.

(** ** Vocabulary of the specification *)

(** [w] occurs in [title] up to the case of letters. *)
Definition occurs_ignoring_case (w title : string) : Prop :=
  exists pre mid post, title = pre ++ mid ++ post /\ lower mid = lower w.

(** The quantity-derived points of a known quantity [q]. *)
Definition quantity_points (q : Z) : Z :=
  2 + (if 20 <=? q then 3 else 0) + (if 50 <=? q then 4 else 0)
    + (if 100 <=? q then 5 else 0).

(** The points [score_listing] gives for everything but the quantity: kinds,
    brands, the two hint lists and the working phrases. *)
Definition other_points (title : string) : Z :=
  let t := lower title in
  (if Re.found Patterns.KINDS t then 2 else 0)
  + (if existsb (fun b => contains b t) BRANDS then 2 else 0)
  + add_hints 1 t UK_HINTS 0
  + add_hints 2 t BIG_LOT_HINTS 0
  + (if Re.found Patterns.WORKING t then 2 else 0).

(** every character of [s] is an ASCII character.  On such text the
    classes and the lowering of [Text] are those of Python's [str]. *)
Fixpoint plain (s : string) : bool :=
  match s with
  | EmptyString => true
  | String c s' => (N.ltb (code c) 128 && plain s')%bool
  end.

(** no character of [s] is a digit *)
Fixpoint digitless (s : string) : bool :=
  match s with
  | EmptyString => true
  | String c s' => (negb (is_digit c) && digitless s')%bool
  end.

Definition digit_opt (p : option ascii) : bool :=
  match p with
  | Some c => is_digit c
  | None => false
  end.

(** The digits [d] stand in [t] as a number of their own: what comes before
    them is the start of the text or a character that is not a word
    character, and what comes after them is not a digit. *)
Definition digits_at (d t : string) : Prop :=
  exists pre post,
    t = pre ++ d ++ post /\
    Re.word_opt (last_char None pre) = false /\
    digit_opt (Re.head post) = false.

(** The word [w] stands in [t] as a word of its own before white space:
    what comes before it is the start of the text or a character that is
    not a word character, and a white-space character follows it. *)
Definition word_at (w t : string) : Prop :=
  exists pre c post,
    t = pre ++ w ++ String c post /\
    Re.word_opt (last_char None pre) = false /\ is_space c = true.

(** The number [n] is spelled in the text [t]: by one to four digits that
    stand there as a number of their own, or by a word of the number
    table that stands there as a word of its own. *)
Definition spelled (n : Z) (t : string) : Prop :=
  (exists d, digits_at d t /\ Re.short_number (Some d) /\ py_int d = Some n) \/
  (exists w, In (w, n) WORD_NUMBERS /\ word_at w t).

(** the identifier of an alert *)
Definition alert_id (a : alert) : string := it_id (snd a).

(** the alerts of score [v], in the order of the list *)
Definition of_score (v : Z) (l : list alert) : list alert :=
  filter (fun a => fst a =? v) l.

(** the in-memory store at the end of each of successive runs *)
Fixpoint stores (set_order : Py.pyset -> list Py.value) (file : seen_file)
    (days : list (list fetched)) : list Py.pyset :=
  match days with
  | [] => []
  | pages :: days' =>
      let seen := fst (collect (load_seen file) pages) in
      seen :: stores set_order (save_seen set_order seen) days'
  end.

(** every listing a run was given *)
Definition listings (pages : list fetched) : list Listing :=
  flat_map (fun r => match r with Some results => results | None => [] end) pages.

(** The listings of a run that get past [if it["id"] in seen: continue], so
    the ones [score_listing] is called on, in order. *)
Fixpoint fresh (seen : Py.pyset) (its : list Listing) : list Listing :=
  match its with
  | [] => []
  | it :: its' =>
      if Py.mem (Py.VStr (it_id it)) seen then fresh seen its'
      else it :: fresh (Py.add (Py.VStr (it_id it)) seen) its'
  end.

(** the alert [main] keeps for a listing *)
Definition scored (it : Listing) : alert := (score_listing (it_title it), it).

Definition actionable (it : Listing) : bool := 3 <=? score_listing (it_title it).

(** [now] lies in the [k]-th window of 300 seconds *)
Definition in_window (k : Z) (now : Q) : Prop :=
  (inject_Z (300 * k) <= now /\ now < inject_Z (300 * (k + 1)))%Q.

(** scores never go up along the list *)
Definition descending (l : list alert) : Prop :=
  forall i j, (i < j < List.length l)%nat ->
    fst (nth j l (0, Build_Listing "" "" "" "")) <= fst (nth i l (0, Build_Listing "" "" "" "")).

(** an enumeration order gives back the elements it was given *)
Definition enumerates (set_order : Py.pyset -> list Py.value) : Prop :=
  forall s, Permutation (set_order s) s.

(** the scores of [l] are at most [v] *)
Definition below (v : Z) (l : list alert) : Prop := Forall (fun a => fst a <= v) l.

(** each alert scores at least as much as all the ones after it *)
Inductive sorted_desc : list alert -> Prop :=
| sorted_nil : sorted_desc []
| sorted_cons x l : below (fst x) l -> sorted_desc l -> sorted_desc (x :: l).

(** the identifiers of listings, as the values the store holds *)
Definition ids (its : list Listing) : list Py.value :=
  map (fun it => Py.VStr (it_id it)) its.

(** *** Sample listings *)

Definition link_of (n : N) : string :=
  "https://www.ebay.co.uk/itm/" ++ NilEmpty.string_of_uint (N.to_uint n).

Definition item (n : N) (title : string) : Listing :=
  {| it_id := link_of n; it_title := title;
     it_price := "10.00"; it_link := link_of n |}.

(** a lot worth an alert *)
Definition first_item : Listing := item 0 "127 cameras job lot".

(** three thousand listings that are not *)
Definition fillers : list Listing :=
  map (fun n => item (N.of_nat n) "lens cap only") (seq 1 3000).

(** a first run that meets 3001 new listings, and a second that meets the
    first of them again *)
Definition day1 : list fetched := [Some (first_item :: fillers)].
Definition day2 : list fetched := [Some [first_item]].

(** the enumeration of a set in the order of insertion *)
Definition oldest_first (s : Py.pyset) : list Py.value := s.

(** the enumeration of a set in the reverse order *)
Definition newest_first (s : Py.pyset) : list Py.value := rev s.

(** ** The rest of the script: urls, parsed items, labels *)

Definition EBAY_BASE : string := "https://www.ebay.co.uk/sch/i.html".

Definition CATEGORIES : list Z := [625; 45089].

Definition BUY_IT_NOW_ONLY : bool := true.

(** a [dict] of strings, in the order its keys were first set *)
Definition BASE_PARAMS : list (string * string) :=
  [ ("LH_Lots", "1"); ("LH_PrefLoc", "2"); ("LH_AvailTo", "3") ].

Module Url.

(** [d[k] = v]: the value is replaced in place, a new key goes last *)
Fixpoint dict_set (k v : string) (d : list (string * string)) : list (string * string) :=
  match d with
  | [] => [(k, v)]
  | (k', v') :: d' =>
      if String.eqb k k' then (k, v) :: d' else (k', v') :: dict_set k v d'
  end.

(** [str(n)] for an integer *)
Definition str (n : Z) : string := NilEmpty.string_of_int (Z.to_int n).

(** the characters [quote_plus] never quotes: letters, digits and "_.-~" *)
Definition is_safe (c : ascii) : bool :=
  (is_upper c || is_lower c || is_digit c
   || N.eqb (code c) 95 || N.eqb (code c) 46
   || N.eqb (code c) 45 || N.eqb (code c) 126)%bool.

(** one digit of "%02X" *)
Definition hex_digit (n : N) : ascii :=
  if N.ltb n 10 then ascii_of_N (48 + n) else ascii_of_N (55 + n).

Definition quote_char (c : ascii) : string :=
  if is_safe c then String c ""
  else if N.eqb (code c) 32 then "+"
  else String "%" (String (hex_digit (code c / 16))
                     (String (hex_digit (N.modulo (code c) 16)) "")).

(** [urllib.parse.quote_plus(s)], byte by byte *)
Fixpoint quote_plus (s : string) : string :=
  match s with
  | EmptyString => EmptyString
  | String c s' => quote_char c ++ quote_plus s'
  end.

(** ["&".join(parts)] *)
Fixpoint join_amp (parts : list string) : string :=
  match parts with
  | [] => ""
  | [x] => x
  | x :: rest => x ++ "&" ++ join_amp rest
  end.

(** [urllib.parse.urlencode(params)] for a dict of strings *)
Definition urlencode (params : list (string * string)) : string :=
  join_amp (map (fun kv => quote_plus (fst kv) ++ "=" ++ quote_plus (snd kv)) params).

End Url.

Definition build_url (term : string) (category : Z) : string :=
  let params := BASE_PARAMS in
  let params := Url.dict_set "_nkw" term params in
  let params := Url.dict_set "_sacat" (Url.str category) params in
  let params := if BUY_IT_NOW_ONLY then Url.dict_set "LH_BIN" "1" params else params in
  EBAY_BASE ++ "?" ++ Url.urlencode params.

(** [SEARCH_GROUPS[group_idx]]: a negative index counts from the end,
    [IndexError] outside the list *)
Definition group_terms (group_idx : Z) : Py.outcome (list string) :=
  let n := Z.of_nat (List.length SEARCH_GROUPS) in
  let i := if group_idx <? 0 then group_idx + n else group_idx in
  if ((0 <=? i) && (i <? n))%bool then
    match nth_error SEARCH_GROUPS (Z.to_nat i) with
    | Some terms => Py.Ok terms
    | None => Py.Raise
    end
  else Py.Raise.

(** the two loops of [main] that fill [urls]: every term under the first
    category, then every term under the second *)
Definition urls_of (terms : list string) : list string :=
  flat_map (fun cat => map (fun term => build_url term cat) terms) CATEGORIES.

(** the urls of the run started at clock reading [now] *)
Definition run_urls (now : Q) : Py.outcome (list string) :=
  Py.bind (group_terms (pick_group now)) (fun terms => Py.Ok (urls_of terms)).

Module Fetch.

(** What [fetch_search] reads of one [li.s-item]: the link element, when
    there is one, with its [href] attribute, when it has one; the stripped
    text of the title element and of the price element, when there are. *)
Record element := {
  el_link : option (option string);
  el_title : option string;
  el_price : option string
}.

(** [s.split(c)[0]]: the text before the first [c] *)
Fixpoint before (c : ascii) (s : string) : string :=
  match s with
  | EmptyString => EmptyString
  | String a s' => if Ascii.eqb a c then EmptyString else String a (before c s')
  end.

(** the body of [for li in soup.select(...)]: the item appended, or [None]
    on [continue].  The length of the title is counted in bytes, which is
    [len(title)] for an ASCII title. *)
Definition item_of (li : element) : option Listing :=
  match el_link li, el_title li, el_price li with
  | Some href, Some title, Some price =>
      if (Nat.ltb (String.length title) 6
          || String.eqb (lower title) "shop on ebay"
          || String.eqb (lower title) "sponsored")%bool
      then None
      else
        let link := before "?" (match href with Some h => h | None => "" end) in
        Some {| it_id := link; it_title := title; it_price := price; it_link := link |}
  | _, _, _ => None
  end.

Fixpoint items_of (lis : list element) : list Listing :=
  match lis with
  | [] => []
  | li :: lis' =>
      match item_of li with
      | Some it => it :: items_of lis'
      | None => items_of lis'
      end
  end.

End Fetch.

(** [fetch_search] on what the request gave: [None] when [requests.get] or
    [raise_for_status] raised, else the elements selected from the page.
    The result is what [main] sees: the items, or [None] for the exception
    it catches. *)
Definition fetch_search (response : option (list Fetch.element)) : fetched :=
  match response with
  | None => None
  | Some lis => Some (Fetch.items_of lis)
  end.

(** the label [main] gives a score *)
Definition label (s : Z) : string :=
  if 12 <=? s then "🔴 HUGE LOT 🔴"
  else if 8 <=? s then "🟠 VERY GOOD LOT 🟠"
  else "🟢 Lot".

(** *** Vocabulary for the properties of these *)

(** the words of the pattern [KINDS] *)
Definition KIND_WORDS : list string :=
  [ "camera"; "cameras"; "compact"; "digicam"; "dslr"; "slr"; "tlr";
    "rangefinder"; "film"; "35mm"; "instant"; "camcorder" ].

(** no string stands twice in [l] *)
Fixpoint distinct (l : list string) : bool :=
  match l with
  | [] => true
  | x :: l' => (negb (existsb (String.eqb x) l') && distinct l')%bool
  end.

(** [c] stands nowhere in [s] *)
Fixpoint lacks (c : ascii) (s : string) : bool :=
  match s with
  | EmptyString => true
  | String a s' => (negb (Ascii.eqb a c) && lacks c s')%bool
  end.



(** the pattern has no group *)
Fixpoint no_groups (r : Re.regex) : bool :=
  match r with
  | Re.Grp _ => false
  | Re.Seq a b | Re.Alt a b => (no_groups a && no_groups b)%bool
  | Re.Opt a => no_groups a
  | _ => true
  end.

(** the value of one digit of "%XX" *)
Definition hex_value (c : ascii) : N :=
  if is_digit c then code c - 48 else code c - 55.

(** The reading of a quoted string back into text: "+" is a space, "%XX" the
    byte XX, anything else itself.  It is used to show that [quote_plus]
    keeps terms apart. *)
Fixpoint unquote_plus (s : string) : string :=
  match s with
  | EmptyString => EmptyString
  | String c s' =>
      if Ascii.eqb c "+" then String " " (unquote_plus s')
      else if Ascii.eqb c "%" then
        match s' with
        | String h (String l s'') =>
            String (ascii_of_N (16 * hex_value h + hex_value l)) (unquote_plus s'')
        | _ => EmptyString
        end
      else String c (unquote_plus s')
  end.

(** a title that has every signal of [score_listing] *)
Definition best_title : string :=
  "100 cameras canon fully working job lot joblot bundle of collection mixed lot house clearance loft find garage find estate charity vintage old retro huge lot massive lot large lot big lot bulk box of crate of bag of".

(** ** Facts about text *)

Section TextFacts.

Lemma lower_char_idem (c : ascii) : lower_char (lower_char c) = lower_char c.
Proof. destruct c as [[] [] [] [] [] [] [] []]; reflexivity. Qed.

Lemma lower_idem (s : string) : lower (lower s) = lower s.
Proof.
  induction s as [|c s IH]; simpl; [reflexivity|].
  now rewrite lower_char_idem, IH.
Qed.

Lemma lower_app (a b : string) : lower (a ++ b) = lower a ++ lower b.
Proof. induction a as [|c a IH]; simpl; [reflexivity | now rewrite IH]. Qed.

Lemma prefix_app (w post : string) : prefix w (w ++ post) = true.
Proof.
  induction w as [|c w IH]; simpl; [now destruct post|].
  destruct (ascii_dec c c); [assumption | congruence].
Qed.

Lemma prefix_inv (w t : string) :
  prefix w t = true -> exists post, t = w ++ post.
Proof.
  revert t; induction w as [|c w IH]; intros t H.
  - now exists t.
  - destruct t as [|d t]; simpl in H; [discriminate|].
    destruct (ascii_dec c d) as [->|]; [|discriminate].
    destruct (IH _ H) as [post ->]. now exists post.
Qed.

Lemma contains_eq (w t : string) :
  contains w t =
  (prefix w t || match t with EmptyString => false | String _ t' => contains w t' end)%bool.
Proof. destruct t; reflexivity. Qed.

Lemma contains_prefix (w t : string) : prefix w t = true -> contains w t = true.
Proof. intros H. rewrite contains_eq, H. reflexivity. Qed.

Lemma contains_app (w pre post : string) : contains w (pre ++ w ++ post) = true.
Proof.
  induction pre as [|c pre IH].
  - cbn [append]. apply contains_prefix, prefix_app.
  - change (String c pre ++ w ++ post) with (String c (pre ++ w ++ post)).
    rewrite contains_eq, IH. apply orb_true_r.
Qed.

Lemma contains_inv (w t : string) :
  contains w t = true -> exists pre post, t = pre ++ w ++ post.
Proof.
  induction t as [|c t IH]; rewrite contains_eq; intros H.
  - rewrite orb_false_r in H. destruct (prefix_inv _ _ H) as [post E].
    now exists "", post.
  - apply orb_true_iff in H as [H|H].
    + destruct (prefix_inv _ _ H) as [post E]. now exists "", post.
    + destruct (IH H) as (pre & post & ->). now exists (String c pre), post.
Qed.

Lemma app_assoc (a b c : string) : (a ++ b) ++ c = a ++ b ++ c.
Proof. induction a as [|x a IH]; simpl; [reflexivity | now rewrite IH]. Qed.

Lemma app_empty_r (a : string) : a ++ "" = a.
Proof. induction a as [|x a IH]; simpl; [reflexivity | now rewrite IH]. Qed.

Lemma length_app (a b : string) :
  String.length (a ++ b) = (String.length a + String.length b)%nat.
Proof. induction a as [|x a IH]; simpl; [reflexivity | now rewrite IH]. Qed.

Lemma take_app (a b : string) : take (String.length a) (a ++ b) = a.
Proof. induction a as [|x a IH]; simpl; [now destruct b | now rewrite IH]. Qed.

Lemma strip_inv (w s s' : string) : strip w s = Some s' -> s = w ++ s'.
Proof.
  revert s; induction w as [|a w IH]; intros s H; simpl in H.
  - now inversion H.
  - destruct s as [|b s]; [discriminate|].
    destruct (Ascii.eqb a b) eqn:E; [|discriminate].
    apply Ascii.eqb_eq in E as ->. simpl. now rewrite (IH _ H).
Qed.

Lemma last_char_app (p : option ascii) (a b : string) :
  last_char p (a ++ b) = last_char (last_char p a) b.
Proof. revert p; induction a as [|x a IH]; intros p; simpl; [reflexivity | apply IH]. Qed.

End TextFacts.

(** The tables hold lower-case phrases. *)
Lemma BLOCKLIST_lower : Forall (fun w => lower w = w) BLOCKLIST.
Proof. repeat constructor. Qed.

Lemma hard_reject_lower (title : string) : hard_reject (lower title) = hard_reject title.
Proof. unfold hard_reject. now rewrite lower_idem. Qed.

Lemma hard_reject_occurs (title w : string) :
  In w BLOCKLIST -> occurs_ignoring_case w title -> hard_reject title = true.
Proof.
  intros Hin (pre & mid & post & -> & Hmid).
  unfold hard_reject. apply existsb_exists. exists w. split; [assumption|].
  rewrite !lower_app, Hmid.
  rewrite (proj1 (Forall_forall _ _) BLOCKLIST_lower w Hin).
  apply contains_app.
Qed.

(** ** Facts about the score *)

Lemma add_hints_shift (pts : Z) (t : string) (hints : list string) (score : Z) :
  add_hints pts t hints score = score + add_hints pts t hints 0.
Proof.
  unfold add_hints. revert score.
  induction hints as [|w hints IH]; intros score; cbn [fold_left]; [lia|].
  rewrite IH, (IH (if contains w t then 0 + pts else 0)).
  destruct (contains w t); lia.
Qed.

Lemma add_hints_grows (pts : Z) (t : string) (hints : list string) (score : Z) :
  0 <= pts -> score <= add_hints pts t hints score.
Proof.
  intros Hp. unfold add_hints. revert score.
  induction hints as [|w hints IH]; intros score; cbn [fold_left]; [lia|].
  specialize (IH (if contains w t then score + pts else score)).
  destruct (contains w t); lia.
Qed.

Lemma add_hints_nonneg (pts : Z) (t : string) (hints : list string) :
  0 <= pts -> 0 <= add_hints pts t hints 0.
Proof. apply add_hints_grows. Qed.

Lemma add_qty_points (qty : option Z) (score : Z) :
  add_qty qty score =
  score + match qty with Some q => quantity_points q | None => 0 end.
Proof.
  unfold add_qty, quantity_points. destruct qty as [q|]; [|lia].
  destruct (20 <=? q), (50 <=? q), (100 <=? q); lia.
Qed.

Lemma quantity_points_range (q : Z) : 2 <= quantity_points q <= 14.
Proof.
  unfold quantity_points.
  destruct (20 <=? q), (50 <=? q), (100 <=? q); lia.
Qed.

Lemma other_points_nonneg (title : string) : 0 <= other_points title.
Proof.
  unfold other_points.
  pose proof (add_hints_nonneg 1 (lower title) UK_HINTS ltac:(lia)).
  pose proof (add_hints_nonneg 2 (lower title) BIG_LOT_HINTS ltac:(lia)).
  cbv zeta.
  destruct (Re.found Patterns.KINDS _), (existsb _ BRANDS),
    (Re.found Patterns.WORKING _); lia.
Qed.

Lemma score_rejected (title : string) :
  hard_reject title = true -> score_listing title = -999.
Proof.
  intros H. unfold score_listing. cbv zeta.
  now rewrite hard_reject_lower, H.
Qed.

Lemma score_accepted (title : string) :
  hard_reject title = false ->
  score_listing title =
  other_points title
  + match extract_qty title with Some q => quantity_points q | None => 0 end.
Proof.
  intros H. unfold score_listing, other_points. cbv zeta.
  rewrite hard_reject_lower, H, add_qty_points.
  rewrite (add_hints_shift 2), (add_hints_shift 1).
  destruct (Re.found Patterns.KINDS _), (existsb _ BRANDS),
    (Re.found Patterns.WORKING _); lia.
Qed.

Lemma score_nonneg (title : string) :
  hard_reject title = false -> 0 <= score_listing title.
Proof.
  intros H. rewrite (score_accepted _ H).
  pose proof (other_points_nonneg title).
  destruct (extract_qty title) as [q|]; [|lia].
  pose proof (quantity_points_range q). lia.
Qed.

(** ** Facts about the matcher *)

Module ReFacts.
Import Re.

(** A successful repetition called its continuation after a run of [mn] to
    [fuel] characters of the class. *)
Lemma rep_inv (c : cclass) (fuel : nat) :
  forall mn p s g k res,
    rep c mn fuel p s g k = Some res ->
    exists ds s',
      s = ds ++ s' /\ all_in c ds = true /\
      (mn <= String.length ds <= fuel)%nat /\
      k (last_char p ds) s' g = Some res.
Proof.
  assert (Hstop : forall mn p s g (k : cont) res (fuel0 : nat),
    (if Nat.eqb mn 0 then k p s g else None) = Some res ->
    exists ds s', s = ds ++ s' /\ all_in c ds = true /\
      (mn <= String.length ds <= fuel0)%nat /\ k (last_char p ds) s' g = Some res).
  { intros mn p s g k res fuel0 H. destruct (Nat.eqb mn 0) eqn:E; [|discriminate].
    apply Nat.eqb_eq in E as ->. exists "", s. simpl. repeat split; auto; lia. }
  induction fuel as [|fuel IH]; intros mn p s g k res H.
  - simpl in H. apply Hstop. destruct s; exact H.
  - destruct s as [|a s]; [apply Hstop; exact H|].
    cbn [rep] in H. destruct (in_class c a) eqn:Ha; [|apply Hstop; exact H].
    destruct (rep c (Nat.pred mn) fuel (Some a) s g k) as [r|] eqn:Hr.
    + inversion H; subst r. apply IH in Hr as (ds & s' & -> & Hds & Hlen & Hk).
      exists (String a ds), s'. simpl. rewrite Ha, Hds. repeat split; auto; lia.
    + apply Hstop. exact H.
Qed.

(** The length of the text is all the fuel an unbounded repetition needs:
    more changes nothing. *)
Lemma rep_fuel (c : cclass) (s : string) :
  forall fuel mn p g k,
    (String.length s <= fuel)%nat ->
    rep c mn fuel p s g k = rep c mn (String.length s) p s g k.
Proof.
  induction s as [|a s IH]; intros fuel mn p g k Hlen.
  - destruct fuel; reflexivity.
  - destruct fuel as [|fuel]; [simpl in Hlen; lia|].
    cbn [rep String.length]. destruct (in_class c a); [|reflexivity].
    rewrite (IH fuel) by (simpl in Hlen; lia). reflexivity.
Qed.

Lemma length_sub_app (ds s' : string) :
  take (String.length (ds ++ s') - String.length s') (ds ++ s') = ds.
Proof.
  rewrite length_app, Nat.add_sub. apply take_app.
Qed.

Lemma ends_with_app (w s text : string) : ends_with (w ++ s) text -> ends_with s text.
Proof. intros [pre ->]. exists (pre ++ w). now rewrite app_assoc. Qed.

(** Whatever a pattern with digit groups captures is a short number that
    stands in the text. *)
Lemma run_capture (text : string) (r : regex) :
  digit_groups r = true ->
  forall p s g (k : cont) res,
    ends_with s text -> read_from text g ->
    (forall p' s' g',
       ends_with s' text -> read_from text g' ->
       k p' s' g' = Some res -> read_from text res) ->
    run r p s g k = Some res -> read_from text res.
Proof.
  induction r as [w| |c mn mx|a IHa b IHb|a IHa b IHb|a IHa|a IHa];
    intros Hr p s g k res Hs Hg Hk H; cbn [run] in H.
  - destruct (strip w s) as [s'|] eqn:E; [|discriminate].
    apply strip_inv in E as ->. apply ends_with_app in Hs. eauto.
  - destruct (at_boundary p s); [eauto | discriminate].
  - apply rep_inv in H as (ds & s' & -> & _ & _ & H).
    apply ends_with_app in Hs. eauto.
  - cbn [digit_groups] in Hr. apply andb_true_iff in Hr as [Ha Hb].
    eapply (IHa Ha); [exact Hs | exact Hg | | exact H].
    intros p' s' g' Hs' Hg' H'. cbv beta in H'. eapply (IHb Hb); eauto.
  - cbn [digit_groups] in Hr. apply andb_true_iff in Hr as [Ha Hb].
    destruct (run a p s g k) eqn:E.
    + inversion H; subst. eapply (IHa Ha); eauto.
    + eapply (IHb Hb); eauto.
  - cbn [digit_groups] in Hr.
    destruct (run a p s g k) eqn:E.
    + inversion H; subst. eapply (IHa Hr); eauto.
    + eauto.
  - destruct a as [| |c mn mx| | | |]; try discriminate Hr.
    destruct c, mx as [mx|]; try discriminate Hr.
    cbn [digit_groups] in Hr. apply andb_true_iff in Hr as [Hmn Hmx].
    apply Nat.leb_le in Hmn, Hmx.
    cbn [run] in H. apply rep_inv in H as (ds & s' & -> & Hds & Hlen & H).
    cbv beta in H. rewrite length_sub_app in H.
    eapply Hk; [| |exact H].
    + now apply ends_with_app in Hs.
    + destruct Hs as [pre ->]. split.
      * split; [assumption | lia].
      * now exists pre, s'.
Qed.

Lemma search_from_capture (text : string) (r : regex) :
  digit_groups r = true ->
  forall s p res,
    ends_with s text -> search_from r p s = Some res -> read_from text res.
Proof.
  intros Hr.
  assert (Hacc : forall res p' s' g',
    ends_with s' text -> read_from text g' ->
    accept p' s' g' = Some res -> read_from text res).
  { intros res p' s' g' _ Hg' H'. now inversion H'; subst. }
  induction s as [|a s IH]; intros p res Hs H; cbn [search_from] in H.
  - destruct (run r p "" None accept) eqn:E; [|discriminate].
    inversion H; subst.
    exact (run_capture text r Hr p "" None accept res Hs I (Hacc res) E).
  - destruct (run r p (String a s) None accept) eqn:E.
    + inversion H; subst.
      exact (run_capture text r Hr p _ None accept res Hs I (Hacc res) E).
    + eapply IH; [|exact H].
      apply (ends_with_app (String a "") s text). exact Hs.
Qed.

Lemma search_capture (r : regex) (text : string) (res : option string) :
  digit_groups r = true -> search r text = Some res -> read_from text res.
Proof.
  intros Hr H. apply (search_from_capture text r Hr text None res); [|exact H].
  now exists "".
Qed.

(** A successful search matched at the end of some prefix of the text. *)
Lemma search_from_inv (r : regex) :
  forall s p res,
    search_from r p s = Some res ->
    exists pre rest,
      s = pre ++ rest /\ run r (last_char p pre) rest None accept = Some res.
Proof.
  induction s as [|a s IH]; intros p res H; cbn [search_from] in H.
  - destruct (run r p "" None accept) eqn:E; [|discriminate].
    exists "", "". now inversion H; subst.
  - destruct (run r p (String a s) None accept) eqn:E.
    + exists "", (String a s). now inversion H; subst.
    + apply IH in H as (pre & rest & -> & H). now exists (String a pre), rest.
Qed.

Lemma digit_range (c : ascii) :
  is_digit c = true -> 0 <= Z.of_N (code c - 48) <= 9.
Proof.
  unfold is_digit, between. intros H. apply andb_true_iff in H as [H1 H2].
  apply N.leb_le in H1, H2. lia.
Qed.

(** [int] of one to four digits is a number from 0 to 9999 and never raises. *)
Lemma py_int_short (d : string) :
  short_number (Some d) -> exists n, py_int d = Some n /\ 0 <= n <= 9999.
Proof.
  intros [Hd Hlen].
  destruct d as [|c1 d]; [simpl in Hlen; lia|].
  unfold py_int.
  repeat match goal with
  | H : all_in Digit (String ?c ?d) = true |- _ =>
      cbn [all_in in_class] in H; apply andb_true_iff in H as [? H]
  | d : string |- _ => destruct d; cbn [String.length] in Hlen; try lia
  end;
  cbn [digits_value];
  repeat match goal with
  | H : is_digit ?c = true |- _ => rewrite H; apply digit_range in H
  end;
  eexists; (split; [reflexivity | lia]).
Qed.

End ReFacts.

(** ** Facts about [extract_qty] *)

Section QuantityFacts.
Import Re ReFacts.

Lemma WORD_NUMBERS_values :
  Forall (fun wv => 1 <= snd wv <= 100) WORD_NUMBERS.
Proof. repeat constructor; simpl; lia. Qed.

Lemma WORD_NUMBERS_initials :
  Forall (fun wv => word_opt (head (fst wv)) = true /\ lower (fst wv) = fst wv)
    WORD_NUMBERS.
Proof. repeat constructor. Qed.

Lemma first_word_inv (t : string) (ws : list (string * Z)) (v : Z) :
  first_word t ws = Some v ->
  exists w, In (w, v) ws /\ found (Patterns.WORD_NOUN w) t = true.
Proof.
  induction ws as [|[w val] ws IH]; simpl; [discriminate|].
  destruct (found (Patterns.WORD_NOUN w) t) eqn:E; intros H.
  - inversion H; subst. exists w. auto.
  - destruct (IH H) as (w' & Hin & Hf). exists w'. auto.
Qed.

(** The number read from group 1 of one of the two digit patterns. *)
Lemma group_int_range (r : regex) (t : string) (m : option string) (n : Z) :
  digit_groups r = true ->
  search r t = Some m -> group_int m = Some n -> 0 <= n <= 9999.
Proof.
  intros Hr Hs Hn. apply (search_capture r t m Hr) in Hs.
  destruct m as [d|]; [|discriminate].
  destruct Hs as [Hshort Hocc].
  destruct (py_int_short d Hshort) as (n' & E & Hrange).
  simpl in Hn. congruence.
Qed.

(** A match of a number-word pattern starts at a word boundary, spells the
    word and goes on with white space. *)
Lemma word_noun_inv (w : string) (p : option ascii) (s : string) (res : option string) :
  run (Patterns.WORD_NOUN w) p s None accept = Some res ->
  at_boundary p s = true /\
  exists c post, s = w ++ String c post /\ is_space c = true.
Proof.
  unfold Patterns.WORD_NOUN, Patterns.spaces1. cbn [run]. intros H.
  destruct (at_boundary p s); [|discriminate]. split; [reflexivity|].
  destruct (strip w s) as [s'|] eqn:Es; [|discriminate].
  apply strip_inv in Es as ->.
  apply rep_inv in H as (ds & s'' & -> & Hds & Hlen & _).
  destruct ds as [|c ds]; [simpl in Hlen; lia|].
  cbn [all_in in_class] in Hds. apply andb_true_iff in Hds as [Hc _].
  exists c, (ds ++ s''). auto.
Qed.

Lemma head_app (w rest : string) :
  word_opt (head w) = true -> head (w ++ rest) = head w.
Proof. destruct w; [discriminate | reflexivity]. Qed.

Lemma number_word_delimited (t w : string) (v : Z) :
  In (w, v) WORD_NUMBERS ->
  found (Patterns.WORD_NOUN w) t = true ->
  exists pre c post,
    t = pre ++ w ++ String c post /\
    word_opt (last_char None pre) = false /\ is_space c = true.
Proof.
  intros Hin Hf. unfold found, search in Hf.
  destruct (search_from (Patterns.WORD_NOUN w) None t) as [res|] eqn:E;
    [|discriminate].
  apply search_from_inv in E as (pre & rest & -> & Hrun).
  apply word_noun_inv in Hrun as (Hb & c & post & -> & Hc).
  exists pre, c, post. repeat split; auto.
  destruct (proj1 (Forall_forall _ _) WORD_NUMBERS_initials _ Hin) as [Hw _].
  simpl in Hw. unfold at_boundary in Hb.
  rewrite (head_app _ _ Hw), Hw in Hb.
  now destruct (word_opt (last_char None pre)).
Qed.

Lemma qty_words_range (t : string) (v : Z) :
  qty_words t = Some v -> 1 <= v <= 100.
Proof.
  unfold qty_words. destruct (first_word t WORD_NUMBERS) as [val|] eqn:E.
  - intros H; inversion H; subst.
    apply first_word_inv in E as (w & Hin & Hf).
    exact (proj1 (Forall_forall _ _) WORD_NUMBERS_values _ Hin).
  - destruct (found Patterns.ONE_HUNDRED t) eqn:Ef; intros H; inversion H; lia.
Qed.

Lemma qty_lot_of_range (t : string) (v : Z) :
  qty_lot_of t = Some v -> 0 <= v <= 9999.
Proof.
  assert (Hw : qty_words t = Some v -> 0 <= v <= 9999).
  { intros H. apply qty_words_range in H. lia. }
  unfold qty_lot_of.
  destruct (search Patterns.LOT_OF t) as [m|] eqn:Es; [|exact Hw].
  destruct (group_int m) as [n|] eqn:En; [|exact Hw].
  intros H; inversion H; subst.
  exact (group_int_range Patterns.LOT_OF t m v eq_refl Es En).
Qed.

Lemma extract_qty_range (title : string) (v : Z) :
  extract_qty title = Some v -> 0 <= v <= 9999.
Proof.
  unfold extract_qty. cbv zeta.
  destruct (search Patterns.COUNT_NOUN (lower title)) as [m|] eqn:Es;
    [|apply qty_lot_of_range].
  destruct (group_int m) as [n|] eqn:En; [|apply qty_lot_of_range].
  intros H; inversion H; subst.
  exact (group_int_range Patterns.COUNT_NOUN _ m v eq_refl Es En).
Qed.

End QuantityFacts.

(** ** Facts about sets *)

Module PyFacts.
Import Py.

Lemma eqb_str (i : string) (y : value) : eqb (VStr i) y = true <-> y = VStr i.
Proof.
  destruct y; simpl; try (split; [discriminate | discriminate]).
  rewrite String.eqb_eq. split; [intros -> | intros [= ->]]; reflexivity.
Qed.

Lemma mem_str (i : string) (s : pyset) : mem (VStr i) s = true <-> In (VStr i) s.
Proof.
  unfold mem. rewrite existsb_exists. split.
  - intros (y & Hy & E). apply eqb_str in E. now subst.
  - intros H. exists (VStr i). split; [assumption | now apply eqb_str].
Qed.

Lemma mem_add (x y : value) (s : pyset) : mem x s = true -> mem x (add y s) = true.
Proof.
  unfold add. destruct (mem y s); [trivial|].
  unfold mem. rewrite existsb_app. intros ->. reflexivity.
Qed.

Lemma In_add (x y : value) (s : pyset) : In x s -> In x (add y s).
Proof.
  unfold add. destruct (mem y s); [trivial|]. intros H. apply in_or_app. now left.
Qed.

Lemma add_here (i : string) (s : pyset) : In (VStr i) (add (VStr i) s).
Proof.
  unfold add. destruct (mem (VStr i) s) eqn:E.
  - now apply mem_str.
  - apply in_or_app. right. now left.
Qed.

Lemma add_inv (x y : value) (s : pyset) : In x (add y s) -> In x s \/ x = y.
Proof.
  unfold add. destruct (mem y s); [auto|].
  intros H. apply in_app_or in H as [H|[H|[]]]; auto.
Qed.

Lemma eqb_refl (x : value) : hashable x = true -> eqb x x = true.
Proof.
  destruct x; simpl; try discriminate; intros _; auto using Z.eqb_refl, String.eqb_refl.
Qed.

Lemma add_NoDup (y : value) (s : pyset) :
  hashable y = true -> NoDup s -> NoDup (add y s).
Proof.
  intros Hy Hs. unfold add. destruct (mem y s) eqn:E; [assumption|].
  assert (Hnot : ~ In y s).
  { intros Hin. assert (mem y s = true); [|congruence].
    unfold mem. apply existsb_exists. exists y. auto using eqb_refl. }
  clear E. induction Hs as [|a s Ha Hs IH]; simpl.
  - repeat constructor. intros [].
  - constructor.
    + intros H. apply in_app_or in H as [H|[<-|[]]]; [auto|].
      apply Hnot. now left.
    + apply IH. intros H. apply Hnot. now right.
Qed.

Lemma add_hashable (y : value) (s : pyset) :
  hashable y = true -> Forall (fun x => hashable x = true) s ->
  Forall (fun x => hashable x = true) (add y s).
Proof.
  intros Hy Hs. unfold add. destruct (mem y s); [assumption|].
  apply Forall_app. auto.
Qed.

Lemma fill_In (l : list value) : forall s x, In x s -> In x (fill l s).
Proof.
  induction l as [|y l IH]; intros s x H; simpl; [assumption|].
  apply IH. now apply In_add.
Qed.

Lemma fill_mem (l : list value) : forall s x, mem x s = true -> mem x (fill l s) = true.
Proof.
  induction l as [|y l IH]; intros s x H; simpl; [assumption|].
  apply IH. now apply mem_add.
Qed.

Lemma fill_str (l : list value) :
  forall s i, In (VStr i) l -> In (VStr i) (fill l s).
Proof.
  induction l as [|y l IH]; intros s i H; simpl; [destruct H|].
  destruct H as [->|H]; [|now apply IH].
  apply fill_In, add_here.
Qed.

Lemma fill_inv (l : list value) :
  forall s x, In x (fill l s) -> In x s \/ In x l.
Proof.
  induction l as [|y l IH]; intros s x H; simpl in *; [auto|].
  apply IH in H as [H|H]; [|auto].
  apply add_inv in H as [H|H]; auto.
Qed.

Lemma fill_NoDup (l : list value) :
  forall s, Forall (fun x => hashable x = true) l -> NoDup s -> NoDup (fill l s).
Proof.
  induction l as [|y l IH]; intros s Hl Hs; simpl; [assumption|].
  inversion Hl; subst. apply IH; [assumption|]. now apply add_NoDup.
Qed.

Lemma fill_hashable (l : list value) :
  forall s, Forall (fun x => hashable x = true) l ->
    Forall (fun x => hashable x = true) s ->
    Forall (fun x => hashable x = true) (fill l s).
Proof.
  induction l as [|y l IH]; intros s Hl Hs; simpl; [assumption|].
  inversion Hl; subst. apply IH; [assumption|]. now apply add_hashable.
Qed.

Lemma last_n_le {A} (n : nat) (l : list A) : (List.length (last_n n l) <= n)%nat.
Proof. unfold last_n. rewrite length_skipn. lia. Qed.

Lemma last_n_all {A} (n : nat) (l : list A) : (List.length l <= n)%nat -> last_n n l = l.
Proof.
  intros H. unfold last_n. replace (List.length l - n)%nat with 0%nat by lia.
  reflexivity.
Qed.

Lemma last_n_incl {A} (n : nat) (l : list A) (x : A) : In x (last_n n l) -> In x l.
Proof.
  unfold last_n. intros H. rewrite <- (firstn_skipn (List.length l - n) l).
  apply in_or_app. now right.
Qed.

End PyFacts.

(** ** Facts about the ranking *)

Section RankFacts.

Lemma insert_desc_perm (x : alert) (l : list alert) :
  Permutation (insert_desc x l) (x :: l).
Proof.
  induction l as [|y l IH]; simpl; [reflexivity|].
  destruct (fst x <? fst y); [|reflexivity].
  rewrite IH. apply perm_swap.
Qed.

Lemma sort_desc_perm (l : list alert) : Permutation (sort_desc l) l.
Proof.
  induction l as [|x l IH]; simpl; [reflexivity|].
  rewrite insert_desc_perm. now constructor.
Qed.

Lemma insert_desc_sorted (x : alert) (l : list alert) :
  sorted_desc l -> sorted_desc (insert_desc x l).
Proof.
  induction 1 as [|y l Hy Hl IH]; simpl.
  - repeat constructor.
  - destruct (fst x <? fst y) eqn:E.
    + apply Z.ltb_lt in E. constructor; [|assumption].
      unfold below. rewrite insert_desc_perm. constructor; [lia | assumption].
    + apply Z.ltb_ge in E. constructor; [|now constructor].
      constructor; [assumption|].
      unfold below in *. eapply Forall_impl; [|exact Hy]. simpl. intros; lia.
Qed.

Lemma sort_desc_sorted (l : list alert) : sorted_desc (sort_desc l).
Proof.
  induction l as [|x l IH]; simpl; [constructor | now apply insert_desc_sorted].
Qed.

Lemma sorted_desc_split (l1 l2 : list alert) :
  sorted_desc (l1 ++ l2) ->
  sorted_desc l1 /\ forall a b, In a l1 -> In b l2 -> fst b <= fst a.
Proof.
  induction l1 as [|x l1 IH]; simpl; intros H.
  - split; [constructor | intros a b []].
  - inversion H as [|? ? Hx Hs]; subst.
    destruct (IH Hs) as [IH1 IH2].
    unfold below in Hx. rewrite Forall_app in Hx. destruct Hx as [Hx1 Hx2].
    split; [now constructor|].
    intros a b [<-|Ha] Hb; [|now apply IH2].
    exact (proj1 (Forall_forall _ _) Hx2 b Hb).
Qed.

Lemma sorted_desc_descending (l : list alert) : sorted_desc l -> descending l.
Proof.
  unfold descending. induction 1 as [|x l Hx Hl IH]; intros i j Hij; simpl in Hij.
  - lia.
  - destruct j as [|j]; [lia|]. destruct i as [|i]; simpl.
    + apply (proj1 (Forall_forall _ _) Hx). apply nth_In. lia.
    + apply IH. lia.
Qed.

(** Insertion leaves the alerts of each score in the order they had. *)
Lemma of_score_insert (v : Z) (x : alert) (l : list alert) :
  of_score v (insert_desc x l) = of_score v (x :: l).
Proof.
  unfold of_score. induction l as [|y l IH]; [reflexivity|].
  cbn [insert_desc]. destruct (fst x <? fst y) eqn:E; [|reflexivity].
  apply Z.ltb_lt in E. cbn [filter] in *. rewrite IH.
  destruct (fst x =? v) eqn:Ex, (fst y =? v) eqn:Ey; try reflexivity.
  apply Z.eqb_eq in Ex, Ey. lia.
Qed.

Lemma of_score_sort (v : Z) (l : list alert) :
  of_score v (sort_desc l) = of_score v l.
Proof.
  induction l as [|x l IH]; [reflexivity|].
  cbn [sort_desc fold_right]. fold (sort_desc l).
  rewrite of_score_insert. unfold of_score in *. cbn [filter]. now rewrite IH.
Qed.

Lemma rank_incl (l : list alert) (a : alert) : In a (rank l) -> In a l.
Proof.
  unfold rank. intros H.
  apply (Permutation_in _ (sort_desc_perm l)).
  rewrite <- (firstn_skipn 7 (sort_desc l)). apply in_or_app. now left.
Qed.

Lemma NoDup_app_l {A} (l1 l2 : list A) : NoDup (l1 ++ l2) -> NoDup l1.
Proof.
  induction l1 as [|x l1 IH]; simpl; intros H; [constructor|].
  inversion H; subst. constructor; [|auto].
  intros Hin. apply H2. apply in_or_app. now left.
Qed.

Lemma rank_NoDup (l : list alert) :
  NoDup (map alert_id l) -> NoDup (map alert_id (rank l)).
Proof.
  intros H. unfold rank.
  apply (Permutation_NoDup (Permutation_map alert_id (Permutation_sym (sort_desc_perm l)))) in H.
  rewrite <- (firstn_skipn 7 (sort_desc l)), map_app in H.
  now apply NoDup_app_l in H.
Qed.

End RankFacts.

(** ** Facts about the loops of [main] *)

Section RunFacts.
Import Py PyFacts.

Lemma visit_seen (seen : pyset) (alerts : list alert) (it : Listing) :
  fst (visit (seen, alerts) it) = add (VStr (it_id it)) seen.
Proof.
  unfold visit. destruct (mem (VStr (it_id it)) seen) eqn:E.
  - unfold add. now rewrite E.
  - cbv zeta. now destruct (3 <=? score_listing (it_title it)).
Qed.

Lemma visit_step (seen : pyset) (alerts : list alert) (it : Listing) :
  visit (seen, alerts) it =
  (add (VStr (it_id it)) seen,
   (alerts ++
    if mem (VStr (it_id it)) seen then []
    else if actionable it then [scored it] else [])%list).
Proof.
  unfold visit, actionable, scored.
  destruct (mem (VStr (it_id it)) seen) eqn:E.
  - unfold add. now rewrite E, List.app_nil_r.
  - cbv zeta. destruct (3 <=? score_listing (it_title it)); [reflexivity|].
    now rewrite List.app_nil_r.
Qed.

(** The inner loop adds every identifier to the store and keeps the
    actionable ones among the listings that pass the guard. *)
Lemma visit_all (its : list Listing) :
  forall seen alerts,
    fold_left visit its (seen, alerts) =
    (fill (ids its) seen,
     (alerts ++ map scored (filter actionable (fresh seen its)))%list).
Proof.
  induction its as [|it its IH]; intros seen alerts.
  - simpl. now rewrite List.app_nil_r.
  - cbn [fold_left]. rewrite visit_step, IH.
    cbn [ids map fresh]. fold (ids its). unfold fill at 2. cbn [fold_left].
    fold (fill (ids its) (add (VStr (it_id it)) seen)).
    destruct (mem (VStr (it_id it)) seen) eqn:E.
    + rewrite List.app_nil_r. unfold add. now rewrite E.
    + cbn [filter]. destruct (actionable it); cbn [map].
      * now rewrite <- List.app_assoc.
      * now rewrite List.app_nil_r.
Qed.

Lemma fill_app (l1 l2 : list value) (s : pyset) :
  fill (l1 ++ l2) s = fill l2 (fill l1 s).
Proof. unfold fill. apply fold_left_app. Qed.

Lemma fresh_app (l1 l2 : list Listing) :
  forall seen,
    fresh seen (l1 ++ l2) = (fresh seen l1 ++ fresh (fill (ids l1) seen) l2)%list.
Proof.
  induction l1 as [|it l1 IH]; intros seen; [reflexivity|].
  cbn [List.app fresh ids map]. fold (ids l1).
  destruct (mem (VStr (it_id it)) seen) eqn:E; rewrite IH; cbn [fill fold_left];
    fold (fill (ids l1) (add (VStr (it_id it)) seen)); [|reflexivity].
  unfold add at 1. now rewrite E.
Qed.

Lemma scan_all (pages : list fetched) :
  forall seen alerts,
    fold_left scan pages (seen, alerts) =
    (fill (ids (listings pages)) seen,
     (alerts ++ map scored (filter actionable (fresh seen (listings pages))))%list).
Proof.
  induction pages as [|[results|] pages IH]; intros seen alerts;
    cbn [fold_left scan listings flat_map].
  - now rewrite List.app_nil_r.
  - fold (listings pages). rewrite visit_all, IH.
    unfold ids. rewrite map_app. fold (ids results) (ids (listings pages)).
    rewrite fill_app, fresh_app, filter_app, map_app, List.app_assoc.
    reflexivity.
  - fold (listings pages). apply IH.
Qed.

Lemma collect_all (seen : pyset) (pages : list fetched) :
  collect seen pages =
  (fill (ids (listings pages)) seen,
   map scored (filter actionable (fresh seen (listings pages)))).
Proof. unfold collect. now rewrite scan_all. Qed.

Lemma fresh_unseen (its : list Listing) :
  forall seen it, In it (fresh seen its) -> ~ In (VStr (it_id it)) seen.
Proof.
  induction its as [|x its IH]; intros seen it H; cbn [fresh] in H; [destruct H|].
  destruct (mem (VStr (it_id x)) seen) eqn:E; [now apply IH|].
  destruct H as [<-|H].
  - intros Hin. apply mem_str in Hin. congruence.
  - intros Hin. exact (IH _ _ H (In_add _ _ _ Hin)).
Qed.

Lemma fresh_incl (its : list Listing) :
  forall seen it, In it (fresh seen its) -> In it its.
Proof.
  induction its as [|x its IH]; intros seen it H; cbn [fresh] in H; [destruct H|].
  destruct (mem (VStr (it_id x)) seen); [right; eauto|].
  destruct H as [<-|H]; [now left | right; eauto].
Qed.

Lemma fresh_NoDup (its : list Listing) :
  forall seen, NoDup (map it_id (fresh seen its)).
Proof.
  induction its as [|x its IH]; intros seen; cbn [fresh]; [constructor|].
  destruct (mem (VStr (it_id x)) seen); [apply IH|].
  cbn [map]. constructor; [|apply IH].
  intros Hin. apply in_map_iff in Hin as (it & Hid & Hin).
  apply fresh_unseen in Hin. apply Hin. rewrite Hid. apply add_here.
Qed.

(** Leaving listings out keeps the identifiers distinct. *)
Lemma filter_distinct (keep : Listing -> bool) (its : list Listing) :
  NoDup (map it_id its) -> NoDup (map it_id (filter keep its)).
Proof.
  induction its as [|x its IH]; cbn [map filter]; intros Hnd; [constructor|].
  apply NoDup_cons_iff in Hnd as [Hx Hnd].
  destruct (keep x); [|now apply IH].
  cbn [map]. apply NoDup_cons; [|now apply IH].
  intros Hin. apply in_map_iff in Hin as (y & Hy & Hin).
  apply filter_In in Hin as [Hin _]. apply Hx. rewrite <- Hy. now apply in_map.
Qed.

Lemma alert_ids (l : list Listing) : map alert_id (map scored l) = map it_id l.
Proof. rewrite map_map. reflexivity. Qed.

(** What the alerts collected in a run are. *)
Lemma collected_alert (seen : pyset) (pages : list fetched) (a : alert) :
  In a (snd (collect seen pages)) ->
  a = scored (snd a) /\ 3 <= fst a /\
  In (snd a) (listings pages) /\ ~ In (VStr (alert_id a)) seen.
Proof.
  rewrite collect_all. cbn [snd]. intros H.
  apply in_map_iff in H as (it & <- & H). apply filter_In in H as [H Hact].
  unfold actionable in Hact. apply Z.leb_le in Hact.
  repeat split; simpl; auto.
  - eapply fresh_incl; eauto.
  - eapply fresh_unseen; eauto.
Qed.

Lemma collected_NoDup (seen : pyset) (pages : list fetched) :
  NoDup (map alert_id (snd (collect seen pages))).
Proof.
  rewrite collect_all. cbn [snd]. rewrite alert_ids.
  apply filter_distinct, fresh_NoDup.
Qed.

Lemma collected_seen (seen : pyset) (pages : list fetched) (it : Listing) :
  In it (listings pages) -> In (VStr (it_id it)) (fst (collect seen pages)).
Proof.
  rewrite collect_all. cbn [fst]. intros H.
  apply fill_str. unfold ids. apply in_map_iff. now exists it.
Qed.

Lemma collected_keeps (seen : pyset) (pages : list fetched) (x : value) :
  mem x seen = true -> mem x (fst (collect seen pages)) = true.
Proof. rewrite collect_all. cbn [fst]. apply fill_mem. Qed.

End RunFacts.

(** ** Facts about the seen cache *)

Section CacheFacts.
Import Py PyFacts.

Lemma load_seen_doc (d : list (string * value)) :
  load_seen (Json (VDict d)) =
  match lookup "seen_ids" d with
  | Some v => try_except (set_of v) []
  | None => []
  end.
Proof.
  unfold load_seen, json_load, bind, get.
  destruct (lookup "seen_ids" d); reflexivity.
Qed.

Lemma chars_hashable (s : string) : Forall (fun x => hashable x = true) (chars s).
Proof. induction s; simpl; constructor; auto. Qed.

Lemma set_of_sound (v : value) :
  let s := try_except (set_of v) [] in
  Forall (fun x => hashable x = true) s /\ NoDup s.
Proof.
  assert (H0 : Forall (fun x => hashable x = true) (@nil value)) by constructor.
  assert (H1 : NoDup (@nil value)) by constructor.
  destruct v as [| | | s | l | d]; simpl; auto.
  - split; [apply fill_hashable | apply fill_NoDup]; auto using chars_hashable.
  - destruct (forallb hashable l) eqn:E; simpl; auto.
    rewrite forallb_forall in E. apply Forall_forall in E.
    split; [apply fill_hashable | apply fill_NoDup]; auto.
  - assert (Forall (fun x => hashable x = true) (map (fun kv => VStr (fst kv)) d)).
    { apply Forall_forall. intros x Hx. apply in_map_iff in Hx as (kv & <- & _).
      reflexivity. }
    split; [apply fill_hashable | apply fill_NoDup]; auto.
Qed.

(** Whatever the file holds, the store loaded from it is a set of hashable
    values. *)
Lemma load_seen_sound (file : seen_file) :
  Forall (fun x => hashable x = true) (load_seen file) /\ NoDup (load_seen file).
Proof.
  assert (H0 : Forall (fun x => hashable x = true) (@nil value)) by constructor.
  assert (H1 : NoDup (@nil value)) by constructor.
  destruct file as [| |v]; try (simpl; auto; fail).
  destruct v; try (simpl; auto; fail).
  rewrite load_seen_doc. destruct (lookup "seen_ids" d); [|auto].
  apply set_of_sound.
Qed.

Lemma collected_hashable (seen : pyset) (pages : list fetched) :
  Forall (fun x => hashable x = true) seen ->
  Forall (fun x => hashable x = true) (fst (collect seen pages)).
Proof.
  intros H. rewrite collect_all. cbn [fst]. apply fill_hashable; [|assumption].
  apply Forall_forall. intros x Hx. apply in_map_iff in Hx as (it & <- & _).
  reflexivity.
Qed.

Variable set_order : pyset -> list value.
Hypothesis set_order_enumerates : enumerates set_order.

Lemma saved_ids_incl (seen : pyset) (x : value) :
  In x (saved_ids set_order seen) -> In x seen.
Proof.
  intros H. apply last_n_incl in H.
  exact (Permutation_in _ (set_order_enumerates seen) H).
Qed.

Lemma load_save (seen : pyset) :
  Forall (fun x => hashable x = true) seen ->
  load_seen (save_seen set_order seen) = fill (saved_ids set_order seen) [].
Proof.
  intros H. unfold save_seen. rewrite load_seen_doc.
  cbn [lookup]. rewrite String.eqb_refl. cbn [set_of].
  replace (forallb hashable (saved_ids set_order seen)) with true; [reflexivity|].
  symmetry. apply forallb_forall. intros x Hx.
  apply saved_ids_incl in Hx.
  exact (proj1 (Forall_forall _ _) H x Hx).
Qed.

(** Within the cap, an identifier of the store is in the store the next run
    loads. *)
Lemma load_save_keeps (seen : pyset) (i : string) :
  Forall (fun x => hashable x = true) seen ->
  (List.length seen <= SEEN_CAP)%nat ->
  In (VStr i) seen -> In (VStr i) (load_seen (save_seen set_order seen)).
Proof.
  intros Hh Hlen Hin. rewrite (load_save _ Hh). apply fill_str.
  unfold saved_ids. rewrite last_n_all.
  - exact (Permutation_in _ (Permutation_sym (set_order_enumerates seen)) Hin).
  - now rewrite (Permutation_length (set_order_enumerates seen)).
Qed.

(** What is in the loaded store gets no alert in the run. *)
Lemma main_skips_seen (file : seen_file) (pages : list fetched) (a : alert) :
  In a (snd (main set_order file pages)) ->
  ~ In (VStr (alert_id a)) (load_seen file).
Proof.
  unfold main. destruct (collect (load_seen file) pages) as [seen alerts] eqn:E.
  cbn [snd]. intros H. apply rank_incl in H.
  assert (Ha : In a (snd (collect (load_seen file) pages))) by now rewrite E.
  now apply collected_alert in Ha.
Qed.

Lemma main_file (file : seen_file) (pages : list fetched) :
  fst (main set_order file pages) =
  save_seen set_order (fst (collect (load_seen file) pages)).
Proof.
  unfold main. now destruct (collect (load_seen file) pages).
Qed.

Lemma main_sent (file : seen_file) (pages : list fetched) :
  snd (main set_order file pages) = rank (snd (collect (load_seen file) pages)).
Proof.
  unfold main. now destruct (collect (load_seen file) pages).
Qed.

(** While no save drops anything, an identifier of the store gets no alert
    in any later run. *)
Lemma runs_skip_seen (i : string) (days : list (list fetched)) :
  forall file,
    In (VStr i) (load_seen file) ->
    Forall (fun s => (List.length s <= SEEN_CAP)%nat) (stores set_order file days) ->
    Forall (fun sent => forall a, In a sent -> alert_id a <> i)
      (runs set_order file days).
Proof.
  induction days as [|pages days IH]; intros file Hin Hcap; cbn [runs]; [constructor|].
  cbn [stores] in Hcap. inversion Hcap as [|? ? Hlen Hrest]; subst.
  pose proof (main_file file pages) as Hf.
  pose proof (main_sent file pages) as Hs.
  pose proof (main_skips_seen file pages) as Hskip.
  destruct (main set_order file pages) as [file' sent]. cbn [fst snd] in *.
  constructor.
  - intros a Ha E. apply (Hskip a Ha). now rewrite E.
  - apply IH; rewrite Hf; [|assumption].
    apply load_save_keeps; [| assumption |].
    + apply collected_hashable, load_seen_sound.
    + apply mem_str, collected_keeps, mem_str, Hin.
Qed.

End CacheFacts.

(** ** Facts about the rotation *)

Section RotationFacts.
Open Scope Q_scope.

Lemma Qfloor_unique (q : Q) (k : Z) :
  inject_Z k <= q -> q < inject_Z (k + 1) -> Qfloor q = k.
Proof.
  intros Hlo Hhi.
  assert (H1 : (k <= Qfloor q)%Z).
  { rewrite <- (Qfloor_Z k). now apply Qfloor_resp_le. }
  assert (H2 : (Qfloor q < k + 1)%Z).
  { rewrite Zlt_Qlt. eapply Qle_lt_trans; [apply Qfloor_le | exact Hhi]. }
  lia.
Qed.

Lemma window_floor (k : Z) (now : Q) : in_window k now -> Qfloor (now / 300) = k.
Proof.
  intros [Hlo Hhi]. apply Qfloor_unique.
  - apply Qle_shift_div_l; [reflexivity|].
    change (inject_Z k * inject_Z 300 <= now).
    rewrite <- inject_Z_mult. now rewrite Z.mul_comm.
  - apply Qlt_shift_div_r; [reflexivity|].
    change (now < inject_Z (k + 1) * inject_Z 300).
    rewrite <- inject_Z_mult. now rewrite Z.mul_comm.
Qed.

Lemma floor_window (now : Q) : in_window (Qfloor (now / 300)) now.
Proof.
  assert (E : now / 300 * 300 == now).
  { rewrite Qmult_comm. apply Qmult_div_r. discriminate. }
  unfold in_window. rewrite !(Z.mul_comm 300), !inject_Z_mult.
  change (inject_Z 300) with 300. split.
  - apply Qle_trans with (now / 300 * 300).
    + apply Qmult_le_compat_r; [apply Qfloor_le | discriminate].
    + rewrite E. apply Qle_refl.
  - apply Qle_lt_trans with (now / 300 * 300).
    + rewrite E. apply Qle_refl.
    + apply Qmult_lt_compat_r; [reflexivity | apply Qlt_floor].
Qed.

Lemma next_window (k : Z) (now : Q) : in_window k now -> in_window (k + 1) (now + 300).
Proof.
  unfold in_window. intros [Hlo Hhi].
  replace (300 * (k + 1))%Z with (300 * k + 300)%Z by lia.
  replace (300 * (k + 1 + 1))%Z with (300 * (k + 1) + 300)%Z by lia.
  rewrite !inject_Z_plus. split.
  - apply Qplus_le_compat; [assumption | apply Qle_refl].
  - apply Qplus_lt_le_compat; [assumption | apply Qle_refl].
Qed.

End RotationFacts.

Lemma group_count : Z.of_nat (List.length SEARCH_GROUPS) = 7.
Proof. reflexivity. Qed.

(** ** Facts about the sample listings *)

Section SampleFacts.
Import Py PyFacts.

Lemma append_inv_head (p a b : string) : p ++ a = p ++ b -> a = b.
Proof. induction p as [|c p IH]; simpl; intros H; [assumption|]. inversion H; auto. Qed.

Lemma link_of_inj (a b : N) : link_of a = link_of b -> a = b.
Proof.
  unfold link_of. intros H. apply append_inv_head in H.
  apply (f_equal NilEmpty.uint_of_string) in H.
  rewrite !NilEmpty.usu in H. injection H as H.
  apply (f_equal N.of_uint) in H. now rewrite !DecimalN.Unsigned.of_to in H.
Qed.

Lemma fillers_ids (i : string) :
  In (VStr i) (ids fillers) -> exists n, (1 <= n <= 3000)%nat /\ i = link_of (N.of_nat n).
Proof.
  unfold ids, fillers. rewrite map_map. intros H.
  apply in_map_iff in H as (n & E & Hn). apply in_seq in Hn.
  exists n. split; [lia|]. simpl in E. now inversion E.
Qed.

Lemma first_not_filler : ~ In (VStr (it_id first_item)) (ids fillers).
Proof.
  intros H. apply fillers_ids in H as (n & Hn & E).
  apply link_of_inj in E. lia.
Qed.

Lemma fillers_NoDup : NoDup (map it_id fillers).
Proof.
  unfold fillers. rewrite map_map.
  apply Finite.Injective_map_NoDup; [|apply seq_NoDup].
  intros a b E. cbn [it_id item] in E. apply link_of_inj in E. lia.
Qed.

Lemma fillers_dull : filter actionable fillers = [].
Proof.
  unfold fillers. induction (seq 1 3000) as [|n l IH]; [reflexivity|].
  cbn [map filter]. rewrite IH. reflexivity.
Qed.

(** Listings with new, distinct identifiers all pass the guard and are
    added in order. *)
Lemma fresh_all (its : list Listing) :
  forall seen,
    NoDup (map it_id its) ->
    (forall it, In it its -> ~ In (VStr (it_id it)) seen) ->
    fresh seen its = its /\ fill (ids its) seen = (seen ++ ids its)%list.
Proof.
  induction its as [|x its IH]; intros seen Hnd Hnew; cbn [fresh ids map fill fold_left].
  - now rewrite List.app_nil_r.
  - fold (ids its). fold (fill (ids its) (add (VStr (it_id x)) seen)).
    inversion Hnd as [|? ? Hx Hnd']; subst.
    assert (E : mem (VStr (it_id x)) seen = false).
    { destruct (mem (VStr (it_id x)) seen) eqn:E; [|reflexivity].
      apply mem_str in E. destruct (Hnew x (or_introl eq_refl) E). }
    rewrite E. unfold add at 1 2. rewrite E.
    destruct (IH (seen ++ [VStr (it_id x)])%list Hnd') as [IH1 IH2].
    { intros it Hit Hin. apply in_app_or in Hin as [Hin|[Hin|[]]].
      - exact (Hnew it (or_intror Hit) Hin).
      - apply Hx. inversion Hin as [Hid]. rewrite Hid. now apply in_map. }
    rewrite IH1, IH2, <- List.app_assoc. split; reflexivity.
Qed.

(** A first run on an empty store that meets one actionable listing [x] and
    then listings that are not. *)
Lemma lone_alert (x : Listing) (rest : list Listing) :
  NoDup (map it_id (x :: rest)) ->
  actionable x = true -> filter actionable rest = [] ->
  collect [] [Some (x :: rest)] = (ids (x :: rest), [scored x]).
Proof.
  intros Hnd Hx Hrest. rewrite collect_all.
  cbn [listings flat_map]. rewrite List.app_nil_r.
  destruct (fresh_all (x :: rest) [] Hnd) as [E1 E2]; [intros it _ []|].
  rewrite E1, E2. cbn [filter]. now rewrite Hx, Hrest.
Qed.

(** The file it leaves when the set is enumerated oldest first and [rest]
    fills the cap: [x] is gone. *)
Lemma lone_alert_saved (x : Listing) (rest : list Listing) :
  NoDup (map it_id rest) -> List.length rest = SEEN_CAP ->
  load_seen (save_seen oldest_first (ids (x :: rest))) = ids rest.
Proof.
  intros Hnd Hlen. rewrite load_save.
  - unfold saved_ids, oldest_first, last_n.
    cbn [ids map List.length]. fold (ids rest). unfold ids at 1.
    rewrite length_map, Hlen.
    replace (S SEEN_CAP - SEEN_CAP)%nat with 1%nat by lia. cbn [skipn].
    destruct (fresh_all rest [] Hnd) as [_ E]; [intros ? _ []|].
    exact E.
  - intros s. apply Permutation_refl.
  - apply Forall_forall. intros y Hy. apply in_map_iff in Hy as (it & <- & _).
    reflexivity.
Qed.

(** The second run, on a store that does not hold [x]. *)
Lemma lone_alert_again (x : Listing) (seen : pyset) :
  ~ In (VStr (it_id x)) seen -> actionable x = true ->
  snd (collect seen [Some [x]]) = [scored x].
Proof.
  intros Hnew Hx. rewrite collect_all. cbn [snd listings flat_map List.app fresh].
  destruct (mem (VStr (it_id x)) seen) eqn:E.
  - apply mem_str in E. contradiction.
  - cbn [filter]. now rewrite Hx.
Qed.

Lemma first_item_NoDup : NoDup (map it_id (first_item :: fillers)).
Proof.
  cbn [map]. constructor; [|apply fillers_NoDup].
  intros H. apply first_not_filler. unfold ids. rewrite <- map_map with (g := VStr).
  now apply in_map.
Qed.

Lemma fillers_length : List.length fillers = SEEN_CAP.
Proof. unfold fillers. now rewrite length_map, length_seq. Qed.

End SampleFacts.

(** ** Facts about titles and the rules of [extract_qty] *)

Section TitleFacts.
Import Re ReFacts.

Lemma lower_split (t a b : string) :
  lower t = a ++ b -> exists ta tb, t = ta ++ tb /\ lower ta = a /\ lower tb = b.
Proof.
  revert t. induction a as [|c a IH]; intros t H.
  - exists "", t. auto.
  - destruct t as [|d t]; [discriminate|]. cbn [lower append] in H.
    injection H as Hc Ht. destruct (IH _ Ht) as (ta & tb & -> & Ha & Hb).
    exists (String d ta), tb. cbn [lower append]. now rewrite Hc, Ha.
Qed.

Lemma occurs_lower (w title : string) :
  lower w = w -> contains w (lower title) = true <-> occurs_ignoring_case w title.
Proof.
  intros Hw. split.
  - intros H. apply contains_inv in H as (pre & post & H).
    apply lower_split in H as (ta & tb & -> & Ha & Hb).
    apply lower_split in Hb as (tm & tc & -> & Hm & Hc).
    exists ta, tm, tc. split; [reflexivity | congruence].
  - intros (pre & mid & post & -> & Hmid).
    rewrite !lower_app, Hmid, Hw. apply contains_app.
Qed.

Lemma BRANDS_lower : Forall (fun w => lower w = w) BRANDS.
Proof. repeat constructor. Qed.

Lemma add_hints_most (pts : Z) (t : string) (hints : list string) (score : Z) :
  0 <= pts -> add_hints pts t hints score <= score + pts * Z.of_nat (List.length hints).
Proof.
  intros Hp. unfold add_hints. revert score.
  induction hints as [|w hints IH]; intros score; cbn [fold_left List.length]; [lia|].
  specialize (IH (if contains w t then score + pts else score)).
  destruct (contains w t); lia.
Qed.

Lemma other_points_most (title : string) : other_points title <= 38.
Proof.
  unfold other_points. cbv zeta.
  pose proof (add_hints_most 1 (lower title) UK_HINTS 0 ltac:(lia)) as H1.
  pose proof (add_hints_most 2 (lower title) BIG_LOT_HINTS 0 ltac:(lia)) as H2.
  change (Z.of_nat (List.length UK_HINTS)) with 14 in H1.
  change (Z.of_nat (List.length BIG_LOT_HINTS)) with 9 in H2.
  destruct (found Patterns.KINDS _), (existsb _ BRANDS),
    (found Patterns.WORKING _); lia.
Qed.

(** A search succeeds as soon as the pattern matches at some position. *)
Lemma search_from_complete (r : regex) (rest : string) (res : option string) :
  forall pre p,
    run r (last_char p pre) rest None accept = Some res ->
    exists res', search_from r p (pre ++ rest) = Some res'.
Proof.
  induction pre as [|c pre IH]; intros p H.
  - cbn [append last_char] in *. exists res.
    destruct rest; cbn [search_from]; now rewrite H.
  - cbn [append search_from].
    destruct (run r p (String c (pre ++ rest)) None accept) as [g|]; [now exists g|].
    apply IH. exact H.
Qed.

Lemma found_at (r : regex) (pre rest : string) (res : option string) :
  run r (last_char None pre) rest None accept = Some res ->
  found r (pre ++ rest) = true.
Proof.
  intros H. apply search_from_complete in H as [res' H].
  unfold found, search. now rewrite H.
Qed.

Lemma strip_app (w s : string) : strip w (w ++ s) = Some s.
Proof.
  induction w as [|c w IH]; [reflexivity|].
  cbn [append strip]. now rewrite Ascii.eqb_refl.
Qed.

(** An alternation of words matches when one of them does. *)
Lemma any_of_complete (w : string) (p : option ascii) (s s' : string)
    (g : option string) (k : cont) :
  forall w0 ws,
    In w (w0 :: ws) -> strip w s = Some s' ->
    k (last_char p w) s' g <> None ->
    run (any_of w0 ws) p s g k <> None.
Proof.
  intros w0 ws. revert w0.
  induction ws as [|w1 ws IH]; intros w0 Hin Hs Hk; cbn [any_of run].
  - destruct Hin as [->|[]]. now rewrite Hs.
  - destruct Hin as [->|Hin].
    + rewrite Hs. destruct (k (last_char p w) s' g); [discriminate | contradiction].
    + destruct (strip w0 s); [|now apply IH].
      destruct (k (last_char p w0) s0 g); [discriminate | now apply IH].
Qed.

Lemma KIND_WORDS_ends :
  Forall (fun w => word_opt (head w) = true /\ word_opt (last_char None w) = true)
    KIND_WORDS.
Proof. repeat constructor. Qed.

Lemma last_char_some (p q : option ascii) (w : string) :
  word_opt (head w) = true -> last_char p w = last_char q w.
Proof. destruct w; [discriminate | reflexivity]. Qed.

(** A kind word that stands between characters that are not word
    characters is found by the pattern [KINDS]. *)
Lemma kinds_found (pre w post : string) :
  In w KIND_WORDS ->
  word_opt (last_char None pre) = false -> word_opt (head post) = false ->
  found Patterns.KINDS (pre ++ w ++ post) = true.
Proof.
  intros Hin Hpre Hpost.
  destruct (proj1 (Forall_forall _ _) KIND_WORDS_ends w Hin) as [Hh Hl].
  destruct (run Patterns.KINDS (last_char None pre) (w ++ post) None accept)
    as [res|] eqn:E; [exact (found_at _ _ _ _ E)|].
  exfalso. revert E. unfold Patterns.KINDS. cbn [run].
  unfold at_boundary at 1. rewrite (head_app _ _ Hh), Hh, Hpre. cbn [xorb].
  apply (any_of_complete w _ _ post); [exact Hin | apply strip_app |].
  unfold at_boundary.
  rewrite (last_char_some _ None w Hh), Hl, Hpost. discriminate.
Qed.

End TitleFacts.

Section CompoundFacts.
Import Re ReFacts.

Lemma space_not_word (c : ascii) : is_space c = true -> is_word c = false.
Proof. destruct c as [[] [] [] [] [] [] [] []]; try discriminate; reflexivity. Qed.

Lemma last_space (c : cclass) (p : option ascii) (ds : string) :
  c = Space -> all_in c ds = true -> (1 <= String.length ds)%nat ->
  word_opt (last_char p ds) = false.
Proof.
  intros ->. revert p. induction ds as [|a ds IH]; intros p Hall Hlen.
  - simpl in Hlen. lia.
  - cbn [all_in in_class] in Hall. apply andb_true_iff in Hall as [Ha Hds].
    cbn [last_char]. destruct ds as [|b ds].
    + cbn [last_char word_opt]. now apply space_not_word.
    + apply IH; [assumption | simpl; lia].
Qed.

(** Where the compound pattern matches, the pattern of "hundred" matches a
    little further on. *)
Lemma one_hundred_covered (t : string) :
  found Patterns.ONE_HUNDRED t = true ->
  found (Patterns.WORD_NOUN "hundred") t = true.
Proof.
  unfold found at 1, search.
  destruct (search_from Patterns.ONE_HUNDRED None t) as [res|] eqn:Es; [|discriminate].
  intros _. apply search_from_inv in Es as (pre & rest & -> & Hrun).
  revert Hrun. unfold Patterns.ONE_HUNDRED, Patterns.spaces1. cbn [run].
  destruct (at_boundary (last_char None pre) rest); [|discriminate].
  destruct (strip "one" rest) as [s1|] eqn:E1; [|discriminate].
  apply strip_inv in E1 as ->. intros H.
  apply rep_inv in H as (ds & s2 & -> & Hds & Hlen & H). cbv beta in H.
  destruct (strip "hundred" s2) as [s3|] eqn:E3; [|discriminate].
  pose proof (strip_inv _ _ _ E3) as ->.
  replace (pre ++ "one" ++ ds ++ "hundred" ++ s3)
    with ((pre ++ "one" ++ ds) ++ "hundred" ++ s3)
    by (now rewrite !app_assoc).
  apply (found_at _ _ _ res).
  unfold Patterns.WORD_NOUN, Patterns.spaces1. cbn [run].
  rewrite E3. rewrite !last_char_app.
  unfold at_boundary at 1.
  rewrite (last_space Space _ ds eq_refl Hds (proj1 Hlen)). cbn [xorb head append word_opt].
  exact H.
Qed.

Lemma first_word_found (t w : string) (v : Z) (ws : list (string * Z)) :
  In (w, v) ws -> found (Patterns.WORD_NOUN w) t = true -> first_word t ws <> None.
Proof.
  induction ws as [|[w' v'] ws IH]; intros Hin Hf; [destruct Hin|].
  cbn [first_word]. destruct (found (Patterns.WORD_NOUN w') t) eqn:E; [discriminate|].
  destruct Hin as [Heq|Hin]; [|now apply IH].
  inversion Heq; subst. congruence.
Qed.

Lemma compound_rule_gone (t : string) : qty_words t = first_word t WORD_NUMBERS.
Proof.
  unfold qty_words. destruct (first_word t WORD_NUMBERS) as [v|] eqn:E; [reflexivity|].
  destruct (found Patterns.ONE_HUNDRED t) eqn:Ef; [|reflexivity].
  apply one_hundred_covered in Ef.
  exfalso. apply (first_word_found t "hundred" 100 WORD_NUMBERS); [|assumption|assumption].
  simpl. tauto.
Qed.

End CompoundFacts.

Section RuleFacts.
Import Re ReFacts.




End RuleFacts.

Section LocatedFacts.
Import Re ReFacts.

(** A match consumed a prefix of the text before it called its
    continuation, and a pattern without group left group 1 as it was. *)
Lemma run_consumes (r : regex) :
  forall p s g (k : cont) res,
    run r p s g k = Some res ->
    exists w s' g',
      s = w ++ s' /\ k (last_char p w) s' g' = Some res /\
      (no_groups r = true -> g' = g).
Proof.
  induction r as [w| |c mn mx|a IHa b IHb|a IHa b IHb|a IHa|a IHa];
    intros p s g k res H; cbn [run] in H.
  - destruct (strip w s) as [s'|] eqn:E; [|discriminate].
    apply strip_inv in E as ->. exists w, s', g. auto.
  - destruct (at_boundary p s); [|discriminate]. exists "", s, g. auto.
  - apply rep_inv in H as (ds & s' & -> & _ & _ & H). exists ds, s', g. auto.
  - apply IHa in H as (w1 & s1 & g1 & -> & H & H1). cbv beta in H.
    apply IHb in H as (w2 & s2 & g2 & -> & H & H2).
    exists (w1 ++ w2), s2, g2. rewrite app_assoc, last_char_app.
    split; [reflexivity|]. split; [assumption|].
    cbn [no_groups]. intros Hn. apply andb_true_iff in Hn as [Ha Hb].
    rewrite (H2 Hb). exact (H1 Ha).
  - destruct (run a p s g k) eqn:E.
    + inversion H; subst. destruct (IHa _ _ _ _ _ E) as (w & s' & g' & Hs & Hk & Hg).
      exists w, s', g'. split; [assumption|]. split; [assumption|].
      cbn [no_groups]. intros Hn. apply andb_true_iff in Hn as [Ha _]. auto.
    + destruct (IHb _ _ _ _ _ H) as (w & s' & g' & Hs & Hk & Hg).
      exists w, s', g'. split; [assumption|]. split; [assumption|].
      cbn [no_groups]. intros Hn. apply andb_true_iff in Hn as [_ Hb]. auto.
  - destruct (run a p s g k) eqn:E.
    + inversion H; subst. destruct (IHa _ _ _ _ _ E) as (w & s' & g' & Hs & Hk & Hg).
      exists w, s', g'. auto.
    + exists "", s, g. auto.
  - apply IHa in H as (w & s' & g' & -> & H & _). cbv beta in H.
    eexists w, s', _. split; [reflexivity|]. split; [exact H|].
    cbn [no_groups]. discriminate.
Qed.

(** An alternation of words matched one of them at the cursor. *)
Lemma any_of_inv (p : option ascii) (s : string) (g : option string) (k : cont)
    (res : option string) :
  forall w ws,
    run (any_of w ws) p s g k = Some res ->
    exists w' s', In w' (w :: ws) /\ s = w' ++ s'.
Proof.
  intros w ws. revert w.
  induction ws as [|w1 ws IH]; intros w H; cbn [any_of run] in H.
  - destruct (strip w s) as [s'|] eqn:E; [|discriminate].
    apply strip_inv in E. exists w, s'. split; [now left | assumption].
  - destruct (strip w s) as [s'|] eqn:E.
    + apply strip_inv in E. exists w, s'. split; [now left | assumption].
    + apply IH in H as (w' & s' & Hin & Hs). exists w', s'.
      split; [now right | assumption].
Qed.

Lemma digit_is_word (c : ascii) : is_digit c = true -> is_word c = true.
Proof. destruct c as [[] [] [] [] [] [] [] []]; try discriminate; reflexivity. Qed.

Lemma space_not_digit (c : ascii) : is_space c = true -> is_digit c = false.
Proof. destruct c as [[] [] [] [] [] [] [] []]; try discriminate; reflexivity. Qed.

Lemma digits_head (d rest : string) :
  all_in Digit d = true -> (1 <= String.length d)%nat ->
  word_opt (head (d ++ rest)) = true.
Proof.
  destruct d as [|c d]; [simpl; lia|]. cbn [all_in in_class append head word_opt].
  intros H _. apply andb_true_iff in H as [H _]. now apply digit_is_word.
Qed.

Lemma digits_last (d : string) :
  forall p, all_in Digit d = true -> (1 <= String.length d)%nat ->
    word_opt (last_char p d) = true.
Proof.
  induction d as [|c d IH]; intros p H Hlen; [simpl in Hlen; lia|].
  cbn [all_in in_class] in H. apply andb_true_iff in H as [Hc Hd].
  cbn [last_char]. destruct d as [|c' d].
  - cbn [last_char word_opt]. now apply digit_is_word.
  - apply IH; [assumption | simpl; lia].
Qed.

Lemma not_word_not_digit (p : option ascii) : word_opt p = false -> digit_opt p = false.
Proof.
  destruct p as [c|]; [|reflexivity]. cbn [word_opt digit_opt]. intros H.
  destruct (is_digit c) eqn:E; [|reflexivity].
  apply digit_is_word in E. congruence.
Qed.

(** What follows the digits of the first pattern is white space, an "x"
    or the noun: not a digit. *)
Lemma count_tail_head (p : option ascii) (s : string) (g : option string)
    (k : cont) (res : option string) :
  run (Seq Patterns.spaces0
         (Seq (Opt (Seq (Lit "x") Patterns.spaces0)) (Seq Patterns.NOUN WordB)))
      p s g k = Some res ->
  digit_opt (head s) = false.
Proof.
  unfold Patterns.spaces0. cbn [run]. intros H.
  apply rep_inv in H as (sp & s2 & -> & Hsp & _ & H). cbv beta in H.
  destruct sp as [|c sp].
  - cbn [append]. destruct (strip "x" s2) as [s3|] eqn:Ex.
    + apply strip_inv in Ex as ->. reflexivity.
    + unfold Patterns.NOUN in H. apply any_of_inv in H as (w & s3 & Hin & ->).
      destruct Hin as [<-|[<-|[<-|[<-|[]]]]]; reflexivity.
  - cbn [all_in in_class] in Hsp. apply andb_true_iff in Hsp as [Hc _].
    cbn [append head digit_opt]. now apply space_not_digit.
Qed.

(** Where the first pattern matches: at a word boundary, with its digits
    first and no digit after them. *)
Lemma count_noun_located (p : option ascii) (s : string) (m : option string) :
  run Patterns.COUNT_NOUN p s None accept = Some m ->
  exists d post,
    s = d ++ post /\ m = Some d /\ short_number (Some d) /\
    word_opt p = false /\ digit_opt (head post) = false.
Proof.
  unfold Patterns.COUNT_NOUN, Patterns.digits14.
  remember (Seq Patterns.spaces0
              (Seq (Opt (Seq (Lit "x") Patterns.spaces0)) (Seq Patterns.NOUN WordB)))
    as tail eqn:Etail.
  cbn [run]. intros H.
  destruct (at_boundary p s) eqn:Hb; [|discriminate].
  apply rep_inv in H as (ds & s' & -> & Hds & Hlen & H). cbv beta in H.
  rewrite length_sub_app in H.
  pose proof H as Hhead. rewrite Etail in Hhead. apply count_tail_head in Hhead.
  apply run_consumes in H as (w & s2 & g' & _ & H & Hg).
  rewrite Hg in H by (rewrite Etail; reflexivity).
  unfold accept in H. inversion H; subst m.
  exists ds, s'. repeat split; try assumption; try lia.
  unfold at_boundary in Hb. rewrite (digits_head ds s' Hds (proj1 Hlen)) in Hb.
  now destruct (word_opt p).
Qed.

(** The end of the second pattern: white space, the digits, a word
    boundary. *)
Lemma lot_suffix (p : option ascii) (s : string) (m : option string) :
  run (Seq Patterns.spaces1 (Seq Patterns.digits14 WordB)) p s None accept = Some m ->
  exists sp d post,
    s = sp ++ d ++ post /\ m = Some d /\ short_number (Some d) /\
    word_opt (last_char p sp) = false /\ digit_opt (head post) = false.
Proof.
  unfold Patterns.spaces1, Patterns.digits14. cbn [run]. intros H.
  apply rep_inv in H as (sp & s1 & -> & Hsp & Hlen1 & H). cbv beta in H.
  apply rep_inv in H as (ds & s2 & -> & Hds & Hlen & H). cbv beta in H.
  rewrite length_sub_app in H.
  destruct (at_boundary (last_char (last_char p sp) ds) s2) eqn:Hb; [|discriminate].
  unfold accept in H. inversion H; subst m.
  exists sp, ds, s2. repeat split; try assumption; try lia.
  - exact (last_space Space p sp eq_refl Hsp (proj1 Hlen1)).
  - apply not_word_not_digit. unfold at_boundary in Hb.
    rewrite (digits_last ds _ Hds (proj1 Hlen)) in Hb.
    now destruct (word_opt (head s2)).
Qed.

Lemma lot_of_located (p : option ascii) (s : string) (m : option string) :
  run Patterns.LOT_OF p s None accept = Some m ->
  exists w d post,
    s = w ++ d ++ post /\ m = Some d /\ short_number (Some d) /\
    word_opt (last_char p w) = false /\ digit_opt (head post) = false.
Proof.
  change (run Patterns.LOT_OF p s None accept)
    with (run (Seq WordB
                 (Seq (any_of "lot" ["job lot"; "joblot"; "bundle"; "box"; "crate"; "bag"])
                    (Seq Patterns.spaces1 (Lit "of"))))
            p s None
            (fun p' s' g' =>
               run (Seq Patterns.spaces1 (Seq Patterns.digits14 WordB)) p' s' g' accept)).
  intros H. apply run_consumes in H as (w & s1 & g' & -> & H & Hg).
  rewrite (Hg eq_refl) in H.
  apply lot_suffix in H as (sp & d & post & -> & Hm & Hd & Hp & Hpost).
  exists (w ++ sp), d, post. rewrite app_assoc, last_char_app. auto.
Qed.

Lemma digits_found (r : regex) (t : string) (m : option string) :
  (forall p s, run r p s None accept = Some m ->
     exists w d post,
       s = w ++ d ++ post /\ m = Some d /\ short_number (Some d) /\
       word_opt (last_char p w) = false /\ digit_opt (head post) = false) ->
  search r t = Some m ->
  exists d, m = Some d /\ digits_at d t /\ short_number (Some d).
Proof.
  intros Hloc H. unfold search in H.
  apply search_from_inv in H as (pre & rest & -> & H).
  apply Hloc in H as (w & d & post & -> & Hm & Hd & Hp & Hpost).
  exists d. split; [assumption|]. split; [|assumption].
  exists (pre ++ w), post. rewrite app_assoc, last_char_app. auto.
Qed.

Lemma count_noun_found (t : string) (m : option string) :
  search Patterns.COUNT_NOUN t = Some m ->
  exists d, m = Some d /\ digits_at d t /\ short_number (Some d).
Proof.
  apply digits_found. intros p s H.
  apply count_noun_located in H as (d & post & -> & Hm & Hd & Hp & Hpost).
  exists "", d, post. auto.
Qed.

Lemma lot_of_found (t : string) (m : option string) :
  search Patterns.LOT_OF t = Some m ->
  exists d, m = Some d /\ digits_at d t /\ short_number (Some d).
Proof. apply digits_found. intros p s. apply lot_of_located. Qed.

Lemma words_spelled (t : string) (n : Z) :
  qty_words t = Some n -> exists w, In (w, n) WORD_NUMBERS /\ word_at w t.
Proof.
  rewrite compound_rule_gone. intros H.
  apply first_word_inv in H as (w & Hin & Hf). exists w. split; [assumption|].
  destruct (number_word_delimited t w n Hin Hf) as (pre & c & post & E & Hp & Hc).
  now exists pre, c, post.
Qed.

(** Every number [extract_qty] returns is spelled in the lowered title. *)
Lemma extract_qty_spelled (title : string) (n : Z) :
  extract_qty title = Some n -> spelled n (lower title).
Proof.
  assert (Hdig : forall t m,
    (exists d, m = Some d /\ digits_at d t /\ short_number (Some d)) ->
    exists d k, m = Some d /\ digits_at d t /\ short_number (Some d) /\
                group_int m = Some k /\ py_int d = Some k).
  { intros t m (d & -> & Hat & Hd). destruct (py_int_short d Hd) as (k & E & _).
    exists d, k. auto 6. }
  unfold extract_qty, qty_lot_of. cbv zeta.
  destruct (search Patterns.COUNT_NOUN (lower title)) as [m|] eqn:E1.
  - destruct (Hdig _ _ (count_noun_found _ _ E1)) as (d & k & -> & Hat & Hd & Hg & Hk).
    rewrite Hg. intros H; inversion H; subst. left. now exists d.
  - destruct (search Patterns.LOT_OF (lower title)) as [m|] eqn:E2.
    + destruct (Hdig _ _ (lot_of_found _ _ E2)) as (d & k & -> & Hat & Hd & Hg & Hk).
      rewrite Hg. intros H; inversion H; subst. left. now exists d.
    + intros H. right. now apply words_spelled.
Qed.

Lemma lower_char_digit (c : ascii) : is_digit (lower_char c) = is_digit c.
Proof. destruct c as [[] [] [] [] [] [] [] []]; reflexivity. Qed.

Lemma digitless_lower (t : string) : digitless (lower t) = digitless t.
Proof.
  induction t as [|c t IH]; [reflexivity|].
  cbn [lower digitless]. now rewrite lower_char_digit, IH.
Qed.

Lemma digitless_app (a b : string) :
  digitless (a ++ b) = (digitless a && digitless b)%bool.
Proof.
  induction a as [|c a IH]; [reflexivity|].
  cbn [append digitless]. now rewrite IH, andb_assoc.
Qed.

Lemma digitless_none (t d : string) :
  digitless t = true -> digits_at d t -> short_number (Some d) -> False.
Proof.
  intros Ht (pre & post & -> & _) [Hd Hlen].
  rewrite !digitless_app in Ht.
  apply andb_true_iff in Ht as [_ Ht]. apply andb_true_iff in Ht as [Ht _].
  destruct d as [|c d]; [simpl in Hlen; lia|].
  cbn [all_in in_class] in Hd. apply andb_true_iff in Hd as [Hc _].
  cbn [digitless] in Ht. rewrite Hc in Ht. discriminate.
Qed.

(** Without digits in the title, a quantity comes from a number word that
    stands in it as a word of its own. *)
Lemma words_only (title : string) (v : Z) :
  digitless title = true -> extract_qty title = Some v ->
  exists w, In (w, v) WORD_NUMBERS /\ word_at w (lower title).
Proof.
  intros Hd H. apply extract_qty_spelled in H as [(d & Hat & Hs & _)|H]; [|exact H].
  exfalso. apply (digitless_none (lower title) d); try assumption.
  now rewrite digitless_lower.
Qed.

End LocatedFacts.

Lemma runs_step (set_order : Py.pyset -> list Py.value) (file : seen_file)
    (pages : list fetched) (days : list (list fetched)) :
  runs set_order file (pages :: days) =
  snd (main set_order file pages) :: runs set_order (fst (main set_order file pages)) days.
Proof. cbn [runs]. now destruct (main set_order file pages). Qed.

Lemma mem_str_false (i : string) (s : Py.pyset) :
  ~ In (Py.VStr i) s -> Py.mem (Py.VStr i) s = false.
Proof.
  intros H. destruct (Py.mem (Py.VStr i) s) eqn:E; [|reflexivity].
  apply PyFacts.mem_str in E. contradiction.
Qed.

(** * The properties of the specification *)

(** C1, as amended.  In a run, an identifier that is in the store the run
    loaded gets no alert, no identifier gets two alerts, and the listings
    that reach [score_listing] are the ones [fresh] lists: their identifiers
    are new to the store and pairwise distinct.  Every listing met is in the
    store at the end of the run, whatever its score, and nothing leaves the
    store during the run.  In the runs that follow, an identifier of the
    store gets no alert for as long as every store saved stayed within the
    cap of 3000, so that no save dropped anything. *)
Theorem seen_identifier_alerts_at_most_once
    (set_order : Py.pyset -> list Py.value) (file : seen_file)
    (pages : list fetched) (days : list (list fetched)) :
  enumerates set_order ->
  let seen0 := load_seen file in
  let seen := fst (collect seen0 pages) in
  let sent := snd (main set_order file pages) in
  ((forall a, In a sent -> Py.mem (Py.VStr (alert_id a)) seen0 = false) /\
   NoDup (map alert_id sent)) /\
  (snd (collect seen0 pages)
     = map scored (filter actionable (fresh seen0 (listings pages))) /\
   NoDup (map it_id (fresh seen0 (listings pages))) /\
   (forall it, In it (fresh seen0 (listings pages)) ->
      Py.mem (Py.VStr (it_id it)) seen0 = false)) /\
  ((forall it, In it (listings pages) -> Py.mem (Py.VStr (it_id it)) seen = true) /\
   (forall x, Py.mem x seen0 = true -> Py.mem x seen = true)) /\
  (Forall (fun s => (List.length s <= SEEN_CAP)%nat)
     (stores set_order file (pages :: days)) ->
   forall i, Py.mem (Py.VStr i) seen = true ->
     Forall (fun sent' => forall a, In a sent' -> alert_id a <> i)
       (runs set_order (fst (main set_order file pages)) days)).
Proof.
  intros Henum seen0 seen sent. repeat split.
  - intros a Ha. apply mem_str_false. exact (main_skips_seen set_order file pages a Ha).
  - unfold sent. rewrite main_sent. apply rank_NoDup, collected_NoDup.
  - now rewrite collect_all.
  - apply fresh_NoDup.
  - intros it Hit. apply mem_str_false. exact (fresh_unseen _ _ _ Hit).
  - intros it Hit. apply PyFacts.mem_str. now apply collected_seen.
  - intros x Hx. now apply collected_keeps.
  - intros Hcap i Hi. cbn [stores] in Hcap.
    inversion Hcap as [|? ? Hlen Hrest]; subst.
    apply (runs_skip_seen set_order Henum); rewrite main_file; [|assumption].
    apply (load_save_keeps set_order Henum); [| assumption | now apply PyFacts.mem_str].
    apply collected_hashable, load_seen_sound.
Qed.

(** Two more runs that meet the same listing, with the set enumerated oldest
    first: neither alerts on it. *)
Lemma seen_identifier_alerts_at_most_once_witness :
  Forall (fun sent' => forall a, In a sent' -> alert_id a <> it_id first_item)
    (runs oldest_first (fst (main oldest_first Missing day2)) [day2; day2]).
Proof.
  destruct (seen_identifier_alerts_at_most_once oldest_first Missing day2 [day2; day2])
    as (_ & _ & _ & H).
  - intros s. apply Permutation_refl.
  - apply H.
    + vm_compute.
      apply Forall_cons; [lia|]. apply Forall_cons; [lia|].
      apply Forall_cons; [lia|]. apply Forall_nil.
    + vm_compute. reflexivity.
Defined.

(** C1 as stated fails once the cap is passed: a first run that meets 3001
    new listings alerts on the first of them and puts it in the store; the
    save keeps 3000 identifiers, and with the set enumerated oldest first it
    is that first one that goes; the next run meets the listing again and
    alerts on it again. *)
Lemma alert_repeats_after_eviction :
  Py.mem (Py.VStr (it_id first_item)) (fst (collect (load_seen Missing) day1)) = true /\
  runs oldest_first Missing [day1; day2] = [[scored first_item]; [scored first_item]].
Proof.
  assert (E1 : collect (load_seen Missing) day1
               = (ids (first_item :: fillers), [scored first_item])).
  { apply (lone_alert first_item fillers first_item_NoDup);
      [reflexivity | apply fillers_dull]. }
  split.
  - rewrite E1. apply PyFacts.mem_str. now left.
  - rewrite !runs_step, !main_sent, !main_file, E1. cbn [fst snd runs].
    rewrite (lone_alert_saved first_item fillers fillers_NoDup fillers_length).
    unfold day2.
    rewrite (lone_alert_again first_item (ids fillers) first_not_filler eq_refl).
    reflexivity.
Qed.

(** C2.  Whatever the enumeration order, the list [save_seen] writes holds
    at most 3000 identifiers, all of them from the store.  Which ones are
    dropped is decided by that order alone: enumerated oldest first, the
    3000 newest are kept; enumerated newest first, a store of 3001 keeps its
    oldest identifier and drops its newest. *)
Theorem saved_store_is_capped_not_fifo :
  (forall set_order seen,
     (List.length (saved_ids set_order seen) <= 3000)%nat) /\
  (forall set_order seen x,
     enumerates set_order -> In x (saved_ids set_order seen) -> In x seen) /\
  (forall seen, saved_ids oldest_first seen = Py.last_n 3000 seen) /\
  enumerates newest_first /\
  (forall oldest middle newest,
     List.length middle = 2999%nat ->
     NoDup (oldest :: middle ++ [newest])%list ->
     In oldest (saved_ids newest_first (oldest :: middle ++ [newest])%list) /\
     ~ In newest (saved_ids newest_first (oldest :: middle ++ [newest])%list)).
Proof.
  split; [|split; [|split; [|split]]].
  - intros set_order seen. apply PyFacts.last_n_le.
  - intros set_order seen x Henum. now apply saved_ids_incl.
  - reflexivity.
  - intros s. unfold newest_first. symmetry. apply Permutation_rev.
  - intros oldest middle newest Hlen Hnd.
    assert (E : saved_ids newest_first (oldest :: middle ++ [newest])%list
                = rev (oldest :: middle)).
    { unfold saved_ids, newest_first, Py.last_n.
      rewrite length_rev. cbn [List.length]. rewrite List.length_app, Hlen.
      cbn [List.length]. unfold SEEN_CAP.
      replace (S (2999 + 1) - 3000)%nat with 1%nat by lia.
      change (oldest :: middle ++ [newest])%list
        with ((oldest :: middle) ++ [newest])%list.
      rewrite rev_app_distr. reflexivity. }
    rewrite E. split.
    + apply -> in_rev. now left.
    + intros H. apply in_rev in H.
      change (oldest :: middle ++ [newest])%list
        with ((oldest :: middle) ++ [newest])%list in Hnd.
      apply NoDup_remove_2 in Hnd. rewrite List.app_nil_r in Hnd.
      contradiction.
Qed.

(** C3, as amended.  For every title [extract_qty] returns: either [None]
    (unknown) or an integer from 0 to 9999.  Zero is possible.  For a title
    of ASCII characters the number is read off the title: it is the value
    of one to four digits that stand in the lowered title after a word
    boundary and before something that is not a digit, or the table value
    of a number word that stands there after a word boundary and before
    white space. *)
Theorem extract_qty_total_nonnegative (title : string) :
  (extract_qty title = None \/
   exists n, extract_qty title = Some n /\ 0 <= n <= 9999) /\
  (plain title = true ->
   forall n, extract_qty title = Some n -> spelled n (lower title)).
Proof.
  split.
  - destruct (extract_qty title) as [n|] eqn:E; [right | now left].
    exists n. split; [reflexivity|]. exact (extract_qty_range title n E).
  - intros _ n. apply extract_qty_spelled.
Qed.

(** "Lot of 40 Cameras": the 40 before the noun. *)
Lemma extract_qty_total_nonnegative_witness : spelled 40 (lower "Lot of 40 Cameras").
Proof.
  apply (proj2 (extract_qty_total_nonnegative "Lot of 40 Cameras")); reflexivity.
Defined.

(** C3 as stated fails: the title "0 cameras" gives the quantity 0, which
    is neither unknown nor positive. *)
Lemma extract_qty_can_be_zero :
  extract_qty "0 cameras" = Some 0 /\
  ~ (extract_qty "0 cameras" = None \/
     exists n, extract_qty "0 cameras" = Some n /\ 0 < n).
Proof.
  assert (E : extract_qty "0 cameras" = Some 0) by reflexivity.
  split; [exact E|]. rewrite E. intros [H|(n & H & Hn)]; [discriminate|].
  inversion H; subst. lia.
Qed.

(** C4.  A title in which a phrase of the blocklist occurs, in any mix of
    upper and lower case, is hard-rejected: [score_listing] returns -999
    whatever else the title holds. *)
Theorem blocklisted_title_is_rejected (title w : string) :
  In w BLOCKLIST -> occurs_ignoring_case w title ->
  hard_reject title = true /\ score_listing title = -999.
Proof.
  intros Hw Hocc. pose proof (hard_reject_occurs title w Hw Hocc) as H.
  split; [assumption | now apply score_rejected].
Qed.

(** A promising title with "BROKEN" in capitals. *)
Lemma blocklisted_title_is_rejected_witness :
  hard_reject "Huge lot of 100 Canon cameras, some BROKEN" = true /\
  score_listing "Huge lot of 100 Canon cameras, some BROKEN" = -999.
Proof.
  apply (blocklisted_title_is_rejected _ "broken").
  - simpl. tauto.
  - exists "Huge lot of 100 Canon cameras, some ", "BROKEN", "".
    split; reflexivity.
Defined.

(** C5.  For a title that is not rejected and whose quantity [q] is known,
    the score is the points of the other signals plus 2, plus 3 when
    [q >= 20], plus 4 when [q >= 50], plus 5 when [q >= 100]: 14 points from
    100 on, exactly 5 at 20, and so more at 100 or above than at 20. *)
Theorem quantity_bonus_is_cumulative (title : string) (q : Z) :
  hard_reject title = false -> extract_qty title = Some q ->
  score_listing title
    = other_points title + 2 + (if 20 <=? q then 3 else 0)
      + (if 50 <=? q then 4 else 0) + (if 100 <=? q then 5 else 0) /\
  (100 <= q -> score_listing title = other_points title + 14) /\
  (q = 20 -> score_listing title = other_points title + 5) /\
  quantity_points 100 = 14 /\ quantity_points 150 = 14 /\ quantity_points 20 = 5 /\
  (100 <= q -> quantity_points 20 < quantity_points q).
Proof.
  intros Hrej Hq. rewrite (score_accepted _ Hrej), Hq. unfold quantity_points.
  repeat split; try reflexivity.
  - lia.
  - intros H. destruct (20 <=? q) eqn:E1, (50 <=? q) eqn:E2, (100 <=? q) eqn:E3; lia.
  - intros ->. reflexivity.
  - intros H. destruct (20 <=? q) eqn:E1, (50 <=? q) eqn:E2, (100 <=? q) eqn:E3;
      simpl; lia.
Qed.

(** A title with the quantity 150. *)
Lemma quantity_bonus_is_cumulative_witness :
  score_listing "150 cameras" = other_points "150 cameras" + 14.
Proof.
  apply (quantity_bonus_is_cumulative "150 cameras" 150); [reflexivity | reflexivity | lia].
Defined.

(** C6.  The reference values of [extract_qty], and the word boundaries of
    the number words: "tent cameras" does not match "ten" and gives unknown,
    and for a title of ASCII characters without digits a quantity is
    returned only when a word of the number table with that value stands in
    the lowered title as a word of its own: after the start of the text or
    a character that is not a word character, and before white space. *)
Theorem extract_qty_reference_values :
  (extract_qty "Canon camera job lot of 70" = Some 70 /\
   extract_qty "127 cameras untested" = Some 127 /\
   extract_qty "seventy cameras bundle" = Some 70 /\
   extract_qty "nice camera bag" = None) /\
  (extract_qty "tent cameras" = None /\ extract_qty "often cameras" = None) /\
  (forall title v,
     plain title = true -> digitless title = true ->
     extract_qty title = Some v ->
     exists w, In (w, v) WORD_NUMBERS /\ word_at w (lower title)).
Proof.
  split; [|split].
  - repeat split; reflexivity.
  - split; reflexivity.
  - intros title v _. apply words_only.
Qed.

(** "Seventy" after a colon and a space. *)
Lemma extract_qty_reference_values_witness :
  exists w, In (w, 70) WORD_NUMBERS /\ word_at w (lower "Lot: Seventy Cameras").
Proof.
  destruct extract_qty_reference_values as (_ & _ & H).
  apply (H "Lot: Seventy Cameras" 70); reflexivity.
Defined.

(** C7.  [pick_group] is a function of the clock reading alone: readings in
    the same window of 300 seconds give the same index, the index of the
    window modulo 7; a reading one window later gives the next index
    modulo 7, the number of term groups. *)
Theorem rotation_is_deterministic_and_cyclic :
  Z.of_nat (List.length SEARCH_GROUPS) = 7 /\
  (forall t1 t2 : Q, (t1 == t2)%Q -> pick_group t1 = pick_group t2) /\
  (forall k t1 t2,
     in_window k t1 -> in_window k t2 ->
     pick_group t1 = pick_group t2 /\ pick_group t1 = k mod 7) /\
  (forall t : Q,
     0 <= pick_group t < 7 /\
     pick_group (t + 300)%Q = (pick_group t + 1) mod 7 /\
     (pick_group (t + 300)%Q - pick_group t) mod 7 = 1).
Proof.
  split; [reflexivity|]. split; [|split].
  - intros t1 t2 E. unfold pick_group. now rewrite E.
  - intros k t1 t2 H1 H2. unfold pick_group.
    rewrite (window_floor k t1 H1), (window_floor k t2 H2). split; reflexivity.
  - intros t. pose proof (floor_window t) as Hw.
    pose proof (next_window _ _ Hw) as Hn.
    unfold pick_group. rewrite (window_floor _ _ Hn), group_count.
    set (k := Qfloor (t / 300)). split; [|split].
    + apply Z.mod_pos_bound. lia.
    + now rewrite Z.add_mod_idemp_l by lia.
    + rewrite <- Zminus_mod. replace (k + 1 - k) with 1 by lia. reflexivity.
Qed.

(** Two readings, 99.5 seconds apart, in the window that starts at
    1699999800. *)
Lemma rotation_is_deterministic_and_cyclic_witness :
  pick_group 1700000000 = pick_group (3400000199 # 2) /\
  pick_group 1700000000 = 5666666 mod 7.
Proof.
  destruct rotation_is_deterministic_and_cyclic as (_ & _ & H & _).
  apply (H 5666666 1700000000%Q (3400000199 # 2)%Q); split; vm_compute; congruence.
Defined.

(** C8.  The alerts of a run are the collected ones sorted by score, highest
    first, and cut to the first 7: no score in the batch is below a score
    left out, and the alerts of one score that are in the batch are the
    first ones of that score met, in the order they were met. *)
Theorem alerts_ranked_stably (alerts : list alert) :
  let batch := rank alerts in
  (List.length batch = Nat.min 7 (List.length alerts) /\
   (List.length batch <= 7)%nat) /\
  (sorted_desc batch /\ descending batch) /\
  (exists dropped,
     Permutation alerts (batch ++ dropped) /\
     forall a b, In a batch -> In b dropped -> fst b <= fst a) /\
  (forall v, exists later,
     of_score v alerts = (of_score v batch ++ later)%list) /\
  (forall set_order file pages,
     snd (main set_order file pages) = rank (snd (collect (load_seen file) pages))).
Proof.
  intros batch. unfold batch, rank.
  pose proof (sort_desc_sorted alerts) as Hs.
  rewrite <- (firstn_skipn 7 (sort_desc alerts)) in Hs.
  apply sorted_desc_split in Hs as [Hs1 Hs2].
  split; [|split; [|split; [|split]]].
  - rewrite length_firstn, (Permutation_length (sort_desc_perm alerts)). split; lia.
  - split; [assumption | now apply sorted_desc_descending].
  - exists (skipn 7 (sort_desc alerts)). split; [|assumption].
    rewrite firstn_skipn. symmetry. apply sort_desc_perm.
  - intros v. exists (of_score v (skipn 7 (sort_desc alerts))).
    rewrite <- (of_score_sort v alerts). unfold of_score.
    now rewrite <- filter_app, firstn_skipn.
  - intros set_order file pages. apply main_sent.
Qed.

(** C9.  [load_seen] has no outcome but a store: every exception of its
    body is caught.  The store is empty when the file is missing, when it
    cannot be read or parsed, when the document is not an object, when the
    object has no [seen_ids] field and when [set] raises on the field; when
    the field is a list of strings the store holds exactly those strings,
    each once. *)
Theorem load_seen_fails_open :
  (load_seen Missing = [] /\ load_seen Corrupt = []) /\
  (forall d, Py.lookup "seen_ids" d = None -> load_seen (Json (Py.VDict d)) = []) /\
  (forall v, (forall d, v <> Py.VDict d) -> load_seen (Json v) = []) /\
  (forall d v, Py.lookup "seen_ids" d = Some v -> Py.set_of v = Py.Raise ->
     load_seen (Json (Py.VDict d)) = []) /\
  (forall d l,
     Py.lookup "seen_ids" d = Some (Py.VList (map Py.VStr l)) ->
     let s := load_seen (Json (Py.VDict d)) in
     NoDup s /\
     (forall x, In x s <-> In x (map Py.VStr l)) /\
     (forall i, Py.mem (Py.VStr i) s = true <-> In i l)).
Proof.
  split; [split; reflexivity|]. split; [|split; [|split]].
  - intros d H. now rewrite load_seen_doc, H.
  - intros v H. destruct v; try reflexivity. now destruct (H d).
  - intros d v H E. now rewrite load_seen_doc, H, E.
  - intros d l H s. unfold s. rewrite load_seen_doc, H. cbn [Py.set_of].
    assert (Hh : Forall (fun x => Py.hashable x = true) (map Py.VStr l)).
    { apply Forall_forall. intros x Hx. apply in_map_iff in Hx as (i & <- & _).
      reflexivity. }
    replace (forallb Py.hashable (map Py.VStr l)) with true
      by (symmetry; apply forallb_forall, Forall_forall, Hh).
    cbn [Py.try_except].
    assert (Hin : forall x, In x (Py.fill (map Py.VStr l) []) <-> In x (map Py.VStr l)).
    { intros x. split.
      - intros Hx. apply PyFacts.fill_inv in Hx as [[]|Hx]. assumption.
      - intros Hx. pose proof Hx as Hx'. apply in_map_iff in Hx' as (i & <- & _).
        now apply PyFacts.fill_str. }
    split; [|split].
    + apply PyFacts.fill_NoDup; [assumption | constructor].
    + exact Hin.
    + intros i. rewrite PyFacts.mem_str, Hin, in_map_iff. split.
      * intros (j & E & Hj). now inversion E; subst.
      * intros Hi. now exists i.
Qed.

(** A saved list that names an identifier twice. *)
Lemma load_seen_fails_open_witness :
  let s := load_seen (Json (Py.VDict [("seen_ids", Py.VList (map Py.VStr ["a"; "b"; "a"]))])) in
  NoDup s /\
  (forall x, In x s <-> In x (map Py.VStr ["a"; "b"; "a"])) /\
  (forall i, Py.mem (Py.VStr i) s = true <-> In i ["a"; "b"; "a"]).
Proof.
  destruct load_seen_fails_open as (_ & _ & _ & _ & H).
  apply (H [("seen_ids", Py.VList (map Py.VStr ["a"; "b"; "a"]))] ["a"; "b"; "a"]).
  reflexivity.
Defined.

(** C10.  [score_listing] returns -999 or a number that is not negative,
    nothing in between; a hard-rejected title scores -999, below the
    threshold of 3, and no alert of a run is for a hard-rejected title:
    every alert carries the score of its title, which is at least 3. *)
Theorem score_is_sentinel_or_nonnegative :
  (forall title, score_listing title = -999 \/ 0 <= score_listing title) /\
  (forall title, ~ (-999 < score_listing title < 0)) /\
  (forall title, hard_reject title = true ->
     score_listing title = -999 /\ score_listing title < 3) /\
  (forall set_order file pages a,
     In a (snd (main set_order file pages)) ->
     hard_reject (it_title (snd a)) = false /\
     fst a = score_listing (it_title (snd a)) /\ 3 <= fst a).
Proof.
  assert (H : forall title, score_listing title = -999 \/ 0 <= score_listing title).
  { intros title. destruct (hard_reject title) eqn:E.
    - left. now apply score_rejected.
    - right. now apply score_nonneg. }
  split; [exact H|]. split; [|split].
  - intros title. destruct (H title); lia.
  - intros title E. rewrite (score_rejected _ E). split; [reflexivity | lia].
  - intros set_order file pages a Ha. rewrite main_sent in Ha.
    apply rank_incl, collected_alert in Ha as (Ea & H3 & _ & _).
    assert (Es : fst a = score_listing (it_title (snd a))) by (now rewrite Ea at 1).
    repeat split; [|assumption|assumption].
    destruct (hard_reject (it_title (snd a))) eqn:E; [|reflexivity].
    apply score_rejected in E. lia.
Qed.

(** The one alert of a run that meets [first_item]. *)
Lemma score_is_sentinel_or_nonnegative_witness :
  hard_reject (it_title first_item) = false /\
  17 = score_listing (it_title first_item) /\ 3 <= 17.
Proof.
  destruct score_is_sentinel_or_nonnegative as (_ & _ & _ & H).
  apply (H oldest_first Missing day2 (17, first_item)).
  vm_compute. now left.
Defined.

(** * Further properties of the code *)

(** ** Titles: rejection, case, bounds *)



(** X1.  For a title of ASCII characters the rejection is exact: the title
    is rejected if and only if a phrase of the blocklist occurs in it, the
    case of letters ignored.  And the sentinel is returned for exactly the
    rejected titles. *)
Theorem rejected_exactly_on_blocklist (title : string) :
  (plain title = true ->
   (hard_reject title = true <->
    exists w, In w BLOCKLIST /\ occurs_ignoring_case w title)) /\
  (score_listing title = -999 <-> hard_reject title = true).
Proof.
  split.
  - intros _. unfold hard_reject. cbv zeta. rewrite existsb_exists. split.
    + intros (w & Hin & Hc). exists w. split; [assumption|].
      apply occurs_lower; [|assumption].
      exact (proj1 (Forall_forall _ _) BLOCKLIST_lower w Hin).
    + intros (w & Hin & Hocc). exists w. split; [assumption|].
      apply occurs_lower; [|assumption].
      exact (proj1 (Forall_forall _ _) BLOCKLIST_lower w Hin).
  - split.
    + intros H. destruct (hard_reject title) eqn:E; [reflexivity|].
      pose proof (score_nonneg _ E). lia.
    + apply score_rejected.
Qed.

(** A rejected title, and the phrase that is in it. *)
Lemma rejected_exactly_on_blocklist_witness :
  exists w, In w BLOCKLIST /\ occurs_ignoring_case w "Old cameras, Parts Only".
Proof.
  apply (proj1 (rejected_exactly_on_blocklist "Old cameras, Parts Only") eq_refl).
  reflexivity.
Defined.

(** X2.  Only the lowered title counts: two titles that differ in the case
    of letters alone get the same verdict, the same quantity and the same
    score. *)
Theorem titles_are_read_ignoring_case (t1 t2 : string) :
  lower t1 = lower t2 ->
  hard_reject t1 = hard_reject t2 /\
  extract_qty t1 = extract_qty t2 /\
  score_listing t1 = score_listing t2.
Proof.
  intros H. unfold score_listing, extract_qty, hard_reject. cbv zeta.
  rewrite H. repeat split; reflexivity.
Qed.

(** "CANON Cameras, Lot Of 30" and its lowered form. *)
Lemma titles_are_read_ignoring_case_witness :
  hard_reject "CANON Cameras, Lot Of 30" = hard_reject "canon cameras, lot of 30" /\
  extract_qty "CANON Cameras, Lot Of 30" = extract_qty "canon cameras, lot of 30" /\
  score_listing "CANON Cameras, Lot Of 30" = score_listing "canon cameras, lot of 30".
Proof.
  apply (titles_are_read_ignoring_case "CANON Cameras, Lot Of 30" "canon cameras, lot of 30").
  reflexivity.
Defined.

(** X3.  No title scores more than 52, and a title with every signal scores
    exactly that. *)
Theorem score_is_at_most_52 :
  (forall title, score_listing title <= 52) /\ score_listing best_title = 52.
Proof.
  split; [|reflexivity].
  intros title. destruct (hard_reject title) eqn:E.
  - rewrite (score_rejected _ E). lia.
  - rewrite (score_accepted _ E). pose proof (other_points_most title).
    destruct (extract_qty title) as [q|]; [|lia].
    pose proof (quantity_points_range q). lia.
Qed.

(** X4.  A title of ASCII characters that is not rejected, names a brand
    anywhere and has a kind word standing as a whole word scores at least
    4, so a new listing with such a title is kept for the alerts. *)
Theorem brand_and_kind_reach_the_threshold (title b w pre post : string) :
  plain title = true ->
  hard_reject title = false ->
  In b BRANDS -> occurs_ignoring_case b title ->
  In w KIND_WORDS -> lower title = pre ++ w ++ post ->
  Re.word_opt (last_char None pre) = false ->
  Re.word_opt (Re.head post) = false ->
  4 <= score_listing title /\
  forall price link id,
    actionable {| it_id := id; it_title := title; it_price := price; it_link := link |}
    = true.
Proof.
  intros _ Hrej Hb Hocc Hw Ht Hpre Hpost.
  assert (H4 : 4 <= score_listing title).
  { rewrite (score_accepted _ Hrej). unfold other_points. cbv zeta.
    rewrite Ht at 1. rewrite (kinds_found pre w post Hw Hpre Hpost).
    replace (existsb (fun b0 => contains b0 (lower title)) BRANDS) with true.
    - pose proof (add_hints_nonneg 1 (lower title) UK_HINTS ltac:(lia)).
      pose proof (add_hints_nonneg 2 (lower title) BIG_LOT_HINTS ltac:(lia)).
      destruct (Re.found Patterns.WORKING _);
        (destruct (extract_qty title) as [q|];
         [pose proof (quantity_points_range q)|]; lia).
    - symmetry. apply existsb_exists. exists b. split; [assumption|].
      apply occurs_lower; [|assumption].
      exact (proj1 (Forall_forall _ _) BRANDS_lower b Hb). }
  split; [assumption|]. intros price link id. unfold actionable. cbn [it_title].
  apply Z.leb_le. lia.
Qed.

(** "Nikon SLR, boxed". *)
Lemma brand_and_kind_reach_the_threshold_witness :
  4 <= score_listing "Nikon SLR, boxed" /\
  forall price link id,
    actionable {| it_id := id; it_title := "Nikon SLR, boxed";
                  it_price := price; it_link := link |} = true.
Proof.
  apply (brand_and_kind_reach_the_threshold "Nikon SLR, boxed" "nikon" "slr" "nikon " ", boxed").
  - reflexivity.
  - reflexivity.
  - simpl. tauto.
  - exists "", "Nikon", " SLR, boxed". split; reflexivity.
  - simpl. tauto.
  - reflexivity.
  - reflexivity.
  - reflexivity.
Defined.

(** X5.  The compound rule "one hundred" never decides a quantity: wherever
    its pattern is found, the pattern of the table word "hundred" is found
    too, so the number words of a title are read from the table alone. *)
Theorem compound_rule_is_covered (t : string) :
  (Re.found Patterns.ONE_HUNDRED t = true ->
   Re.found (Patterns.WORD_NOUN "hundred") t = true) /\
  qty_words t = first_word t WORD_NUMBERS.
Proof.
  split; [apply one_hundred_covered | apply compound_rule_gone].
Qed.

(** "One  Hundred cameras", lowered. *)
Lemma compound_rule_is_covered_witness :
  Re.found (Patterns.WORD_NOUN "hundred") "one  hundred cameras" = true.
Proof.
  apply (proj1 (compound_rule_is_covered "one  hundred cameras")). reflexivity.
Defined.

(** ** The store and the run *)

Section StoreFacts.
Import Py PyFacts.

Lemma fill_fresh (its : list Listing) :
  forall seen, fill (ids its) seen = (seen ++ ids (fresh seen its))%list.
Proof.
  induction its as [|x its IH]; intros seen; cbn [ids map fresh].
  - unfold fill. cbn [fold_left]. now rewrite List.app_nil_r.
  - fold (ids its). unfold fill. cbn [fold_left].
    fold (fill (ids its) (add (VStr (it_id x)) seen)). rewrite IH.
    unfold add. destruct (mem (VStr (it_id x)) seen) eqn:E; [reflexivity|].
    cbn [ids map]. fold (ids (fresh (seen ++ [VStr (it_id x)])%list its)).
    now rewrite <- List.app_assoc.
Qed.

Lemma fresh_length (its : list Listing) :
  forall seen, (List.length (fresh seen its) <= List.length its)%nat.
Proof.
  induction its as [|x its IH]; intros seen; cbn [fresh List.length]; [lia|].
  destruct (mem (VStr (it_id x)) seen); cbn [List.length].
  - specialize (IH seen). lia.
  - specialize (IH (add (VStr (it_id x)) seen)). lia.
Qed.

Lemma fresh_none (its : list Listing) (seen : pyset) :
  (forall it, In it its -> In (VStr (it_id it)) seen) -> fresh seen its = [].
Proof.
  induction its as [|x its IH]; intros H; cbn [fresh]; [reflexivity|].
  replace (mem (VStr (it_id x)) seen) with true.
  - apply IH. intros it Hit. apply H. now right.
  - symmetry. apply mem_str, H. now left.
Qed.

(** Distinct strings go into a set one by one, in order. *)
Lemma fill_strings (l : list value) :
  forall s,
    Forall (fun x => exists i, x = VStr i) l -> NoDup (s ++ l) ->
    fill l s = (s ++ l)%list.
Proof.
  induction l as [|x l IH]; intros s Hstr Hnd; unfold fill; cbn [fold_left].
  - now rewrite List.app_nil_r.
  - fold (fill l (add x s)). inversion Hstr as [|? ? [i ->] Hl]; subst.
    assert (E : mem (VStr i) s = false).
    { apply mem_str_false. intros Hin. apply NoDup_remove_2 in Hnd.
      apply Hnd, in_or_app. now left. }
    unfold add. rewrite E. rewrite IH; [now rewrite <- List.app_assoc | assumption |].
    now rewrite <- List.app_assoc.
Qed.

Lemma NoDup_app_r {A} (l1 l2 : list A) : NoDup (l1 ++ l2) -> NoDup l2.
Proof.
  induction l1 as [|x l1 IH]; cbn [List.app]; [trivial|].
  intros H. apply IH. now apply NoDup_cons_iff in H.
Qed.

Lemma listings_app (p1 p2 : list fetched) :
  listings (p1 ++ p2) = (listings p1 ++ listings p2)%list.
Proof. unfold listings. apply flat_map_app. Qed.

End StoreFacts.

(** X6.  Failed fetches leave no trace: a run in which the fetch of one url
    raised ends with the same file and the same alerts as the run without
    that url, and a file is written either way. *)
Theorem failed_fetch_is_skipped
    (set_order : Py.pyset -> list Py.value) (file : seen_file)
    (before after : list fetched) :
  main set_order file (before ++ None :: after) = main set_order file (before ++ after) /\
  exists doc, fst (main set_order file (before ++ None :: after)) = Json doc.
Proof.
  assert (E : listings (before ++ None :: after) = listings (before ++ after)).
  { rewrite !listings_app. reflexivity. }
  split.
  - unfold main. now rewrite !collect_all, E.
  - rewrite main_file. unfold save_seen. eauto.
Qed.

(** X7.  What a run does to the store: it appends the identifiers of the
    listings it scored, in the order they were met, and nothing else; the
    store grows by at most the number of listings met and holds no
    identifier twice. *)
Theorem run_appends_the_new_identifiers (file : seen_file) (pages : list fetched) :
  let seen0 := load_seen file in
  let seen := fst (collect seen0 pages) in
  seen = (seen0 ++ ids (fresh seen0 (listings pages)))%list /\
  (List.length seen0 <= List.length seen
   <= List.length seen0 + List.length (listings pages))%nat /\
  NoDup seen.
Proof.
  intros seen0 seen. unfold seen. rewrite collect_all. cbn [fst].
  split; [apply fill_fresh|]. split.
  - rewrite fill_fresh, List.length_app. unfold ids. rewrite length_map.
    pose proof (fresh_length (listings pages) seen0). lia.
  - apply PyFacts.fill_NoDup; [|apply load_seen_sound].
    apply Forall_forall. intros x Hx. apply in_map_iff in Hx as (it & <- & _).
    reflexivity.
Qed.

(** X8.  Saving a store of distinct strings and loading it again gives the
    list that was written: nothing that was not in the store, nothing twice,
    3000 identifiers when the store had more and all of them when it had
    at most 3000. *)
Theorem save_then_load
    (set_order : Py.pyset -> list Py.value) (l : list string) :
  enumerates set_order -> NoDup l ->
  let store := map Py.VStr l in
  let back := load_seen (save_seen set_order store) in
  back = saved_ids set_order store /\
  NoDup back /\
  (forall x, In x back -> In x store) /\
  List.length back = Nat.min 3000 (List.length l) /\
  ((List.length l <= 3000)%nat -> forall x, In x back <-> In x store).
Proof.
  intros Henum Hnd store back.
  assert (Hstore : NoDup store).
  { apply Finite.Injective_map_NoDup; [|assumption]. intros a b E. now inversion E. }
  assert (Hh : Forall (fun x => Py.hashable x = true) store).
  { apply Forall_forall. intros x Hx. apply in_map_iff in Hx as (i & <- & _).
    reflexivity. }
  assert (Hsub : forall x, In x (saved_ids set_order store) -> In x store).
  { intros x. now apply saved_ids_incl. }
  assert (Hnd' : NoDup (saved_ids set_order store)).
  { unfold saved_ids, Py.last_n.
    pose proof (Permutation_NoDup (Permutation_sym (Henum store)) Hstore) as H.
    rewrite <- (firstn_skipn (List.length (set_order store) - SEEN_CAP)) in H.
    now apply NoDup_app_r in H. }
  assert (E : back = saved_ids set_order store).
  { unfold back. rewrite (load_save set_order Henum store Hh).
    apply (fill_strings (saved_ids set_order store) []); [|assumption].
    apply Forall_forall. intros x Hx. apply Hsub in Hx.
    apply in_map_iff in Hx as (i & <- & _). now exists i. }
  rewrite E. split; [reflexivity|]. split; [assumption|]. split; [assumption|].
  assert (Hlen : List.length (set_order store) = List.length l).
  { rewrite (Permutation_length (Henum store)). apply length_map. }
  split.
  - unfold saved_ids, Py.last_n, SEEN_CAP. rewrite length_skipn, Hlen. lia.
  - intros Hle x. unfold saved_ids. rewrite PyFacts.last_n_all.
    + split; apply Permutation_in; [apply Henum | apply Permutation_sym, Henum].
    + unfold SEEN_CAP. lia.
Qed.

(** Three identifiers, enumerated newest first. *)
Lemma save_then_load_witness :
  let store := map Py.VStr ["a"; "b"; "c"] in
  let back := load_seen (save_seen newest_first store) in
  back = saved_ids newest_first store /\
  NoDup back /\
  (forall x, In x back -> In x store) /\
  List.length back = Nat.min 3000 3 /\
  ((3 <= 3000)%nat -> forall x, In x back <-> In x store).
Proof.
  apply (save_then_load newest_first ["a"; "b"; "c"]).
  - intros s. unfold newest_first. symmetry. apply Permutation_rev.
  - repeat constructor; simpl; intuition discriminate.
Defined.

(** X9.  A second run on the same results sends nothing, as long as the
    store of the first run fitted the cap. *)
Theorem rerun_sends_nothing
    (set_order : Py.pyset -> list Py.value) (file : seen_file) (pages : list fetched) :
  enumerates set_order ->
  (List.length (fst (collect (load_seen file) pages)) <= SEEN_CAP)%nat ->
  snd (main set_order (fst (main set_order file pages)) pages) = [].
Proof.
  intros Henum Hcap. rewrite main_sent, main_file, collect_all. cbn [snd].
  rewrite fresh_none; [reflexivity|].
  intros it Hit. apply (load_save_keeps set_order Henum); [|assumption|].
  - apply collected_hashable, load_seen_sound.
  - now apply collected_seen.
Qed.

(** The run that meets [first_item], twice. *)
Lemma rerun_sends_nothing_witness :
  snd (main oldest_first (fst (main oldest_first Missing day2)) day2) = [].
Proof.
  apply (rerun_sends_nothing oldest_first Missing day2).
  - intros s. apply Permutation_refl.
  - vm_compute. lia.
Defined.

(** X10.  The label follows the quantity: an alert whose title gives a
    quantity of 100 or more is labelled as a huge lot, and one of 50 or more
    never gets the plain label. *)
Theorem big_quantities_get_big_labels
    (set_order : Py.pyset -> list Py.value) (file : seen_file)
    (pages : list fetched) (a : alert) (q : Z) :
  In a (snd (main set_order file pages)) ->
  extract_qty (it_title (snd a)) = Some q ->
  (100 <= q -> label (fst a) = "🔴 HUGE LOT 🔴") /\
  (50 <= q -> label (fst a) <> "🟢 Lot").
Proof.
  intros Ha Hq. rewrite main_sent in Ha.
  apply rank_incl, collected_alert in Ha as (Ea & H3 & _ & _).
  assert (Es : fst a = score_listing (it_title (snd a))) by (now rewrite Ea at 1).
  assert (Hrej : hard_reject (it_title (snd a)) = false).
  { destruct (hard_reject (it_title (snd a))) eqn:E; [|reflexivity].
    apply score_rejected in E. lia. }
  rewrite (score_accepted _ Hrej), Hq in Es.
  pose proof (other_points_nonneg (it_title (snd a))) as Ho.
  unfold quantity_points in Es. unfold label. split; intros Hbig.
  - destruct (20 <=? q) eqn:E1, (50 <=? q) eqn:E2, (100 <=? q) eqn:E3; try lia.
    replace (12 <=? fst a) with true by (symmetry; apply Z.leb_le; lia).
    reflexivity.
  - destruct (20 <=? q) eqn:E1, (50 <=? q) eqn:E2; try lia.
    destruct (12 <=? fst a) eqn:E12; [discriminate|].
    replace (8 <=? fst a) with true
      by (symmetry; apply Z.leb_le; destruct (100 <=? q); lia).
    discriminate.
Qed.

(** The run that meets [first_item], a lot of 127. *)
Lemma big_quantities_get_big_labels_witness :
  (100 <= 127 -> label 17 = "🔴 HUGE LOT 🔴") /\ (50 <= 127 -> label 17 <> "🟢 Lot").
Proof.
  apply (big_quantities_get_big_labels oldest_first Missing day2 (17, first_item) 127).
  - vm_compute. now left.
  - reflexivity.
Defined.

(** ** Rotation, urls and parsed items *)

Section RotationMore.

Lemma window_shift (k j : Z) (now : Q) :
  in_window k now -> in_window (k + j) (now + inject_Z (300 * j))%Q.
Proof.
  unfold in_window. intros [Hlo Hhi].
  replace (300 * (k + j)) with (300 * k + 300 * j) by lia.
  replace (300 * (k + j + 1)) with (300 * (k + 1) + 300 * j) by lia.
  rewrite !inject_Z_plus. split.
  - apply Qplus_le_compat; [assumption | apply Qle_refl].
  - apply Qplus_lt_le_compat; [assumption | apply Qle_refl].
Qed.

Lemma pick_group_shift (now : Q) (j : Z) :
  pick_group (now + inject_Z (300 * j))%Q = (pick_group now + j) mod 7.
Proof.
  pose proof (window_shift _ j _ (floor_window now)) as Hw.
  unfold pick_group. rewrite (window_floor _ _ Hw), group_count.
  now rewrite Z.add_mod_idemp_l by lia.
Qed.

Lemma pick_group_range (now : Q) : 0 <= pick_group now < 7.
Proof. unfold pick_group. rewrite group_count. apply Z.mod_pos_bound. lia. Qed.

End RotationMore.

Lemma rotation_group_exists (now : Q) :
  exists terms, group_terms (pick_group now) = Py.Ok terms /\ In terms SEARCH_GROUPS.
Proof.
  pose proof (pick_group_range now) as Hr.
  assert (H : pick_group now = 0 \/ pick_group now = 1 \/ pick_group now = 2 \/
              pick_group now = 3 \/ pick_group now = 4 \/ pick_group now = 5 \/
              pick_group now = 6) by lia.
  destruct H as [E|[E|[E|[E|[E|[E|E]]]]]]; rewrite E;
    eexists; (split; [reflexivity | simpl; tauto]).
Qed.

(** X11.  Moving the clock by whole windows moves the index by as many
    steps around the 7 groups; so any 7 consecutive windows select each
    group exactly once, and the index always names a group of
    [SEARCH_GROUPS], which is never empty: the lookup of the terms cannot
    raise. *)
Theorem rotation_covers_every_group (now : Q) :
  (forall j, pick_group (now + inject_Z (300 * j))%Q = (pick_group now + j) mod 7) /\
  (forall g, 0 <= g < 7 ->
     exists j, 0 <= j < 7 /\ pick_group (now + inject_Z (300 * j))%Q = g) /\
  (forall j1 j2, 0 <= j1 < 7 -> 0 <= j2 < 7 ->
     pick_group (now + inject_Z (300 * j1))%Q = pick_group (now + inject_Z (300 * j2))%Q ->
     j1 = j2) /\
  (exists terms,
     group_terms (pick_group now) = Py.Ok terms /\
     In terms SEARCH_GROUPS /\ terms <> []).
Proof.
  pose proof (pick_group_range now) as Hr.
  split; [intros j; apply pick_group_shift|]. split; [|split].
  - intros g Hg. exists ((g - pick_group now) mod 7). split.
    + apply Z.mod_pos_bound. lia.
    + rewrite pick_group_shift, Z.add_mod_idemp_r by lia.
      replace (pick_group now + (g - pick_group now)) with g by lia.
      apply Z.mod_small. lia.
  - intros j1 j2 H1 H2. rewrite !pick_group_shift.
    generalize (pick_group now) Hr. intros p Hp H.
    assert (E1 : (p + j1) mod 7 = p + j1 \/ (p + j1) mod 7 = p + j1 - 7).
    { destruct (Z_lt_ge_dec (p + j1) 7).
      - left. apply Z.mod_small. lia.
      - right. replace (p + j1) with ((p + j1 - 7) + 1 * 7) at 1 by lia.
        rewrite Z.mod_add by lia. apply Z.mod_small. lia. }
    assert (E2 : (p + j2) mod 7 = p + j2 \/ (p + j2) mod 7 = p + j2 - 7).
    { destruct (Z_lt_ge_dec (p + j2) 7).
      - left. apply Z.mod_small. lia.
      - right. replace (p + j2) with ((p + j2 - 7) + 1 * 7) at 1 by lia.
        rewrite Z.mod_add by lia. apply Z.mod_small. lia. }
    pose proof (Z.mod_pos_bound (p + j1) 7 ltac:(lia)).
    pose proof (Z.mod_pos_bound (p + j2) 7 ltac:(lia)).
    lia.
  - assert (H : pick_group now = 0 \/ pick_group now = 1 \/ pick_group now = 2 \/
                pick_group now = 3 \/ pick_group now = 4 \/ pick_group now = 5 \/
                pick_group now = 6) by lia.
    destruct H as [E|[E|[E|[E|[E|[E|E]]]]]]; rewrite E;
      eexists; (split; [reflexivity|]); (split; [simpl; tauto | discriminate]).
Qed.

Section UrlFacts.
Import Url.

Lemma lacks_app (c : ascii) (a b : string) :
  lacks c (a ++ b) = (lacks c a && lacks c b)%bool.
Proof.
  induction a as [|x a IH]; cbn [append lacks]; [reflexivity|].
  rewrite IH. now rewrite andb_assoc.
Qed.

(** Two texts cut at the first [c] agree part by part. *)
Lemma cut_at (c : ascii) (a : string) :
  forall b x y,
    lacks c a = true -> lacks c b = true ->
    a ++ String c x = b ++ String c y -> a = b /\ x = y.
Proof.
  induction a as [|u a IH]; intros b x y Ha Hb H.
  - destruct b as [|v b]; cbn [append] in H.
    + now inversion H.
    + inversion H; subst. cbn [lacks] in Hb. now rewrite Ascii.eqb_refl in Hb.
  - destruct b as [|v b]; cbn [append] in H.
    + inversion H; subst. cbn [lacks] in Ha. now rewrite Ascii.eqb_refl in Ha.
    + inversion H; subst. cbn [lacks] in Ha, Hb.
      apply andb_true_iff in Ha as [_ Ha]. apply andb_true_iff in Hb as [_ Hb].
      destruct (IH _ _ _ Ha Hb H2) as [-> ->]. auto.
Qed.

Lemma quote_char_read (c : ascii) (rest : string) :
  unquote_plus (quote_char c ++ rest) = String c (unquote_plus rest).
Proof. destruct c as [[] [] [] [] [] [] [] []]; reflexivity. Qed.

Lemma quote_plus_read (s : string) : unquote_plus (quote_plus s) = s.
Proof.
  induction s as [|c s IH]; [reflexivity|].
  cbn [quote_plus]. now rewrite quote_char_read, IH.
Qed.

Lemma quote_plus_inj (a b : string) : quote_plus a = quote_plus b -> a = b.
Proof.
  intros H. apply (f_equal unquote_plus) in H. now rewrite !quote_plus_read in H.
Qed.

Lemma quote_char_plain (c : ascii) :
  lacks "&" (quote_char c) = true /\ lacks " " (quote_char c) = true /\
  lacks "?" (quote_char c) = true.
Proof. destruct c as [[] [] [] [] [] [] [] []]; repeat split; reflexivity. Qed.

Lemma quote_plus_plain (s : string) :
  lacks "&" (quote_plus s) = true /\ lacks " " (quote_plus s) = true /\
  lacks "?" (quote_plus s) = true.
Proof.
  induction s as [|c s (IH1 & IH2 & IH3)]; [repeat split; reflexivity|].
  cbn [quote_plus]. rewrite !lacks_app, IH1, IH2, IH3.
  destruct (quote_char_plain c) as (-> & -> & ->). repeat split; reflexivity.
Qed.

Lemma str_inj (a b : Z) : str a = str b -> a = b.
Proof.
  unfold str. intros H. apply (f_equal NilEmpty.int_of_string) in H.
  rewrite !NilEmpty.isi in H. injection H as H.
  apply (f_equal Z.of_int) in H. now rewrite !DecimalZ.of_to in H.
Qed.

(** The url of a term in a category, written out. *)
Lemma build_url_shape (term : string) (category : Z) :
  build_url term category =
  "https://www.ebay.co.uk/sch/i.html?LH_Lots=1&LH_PrefLoc=2&LH_AvailTo=3&_nkw="
  ++ quote_plus term ++ "&_sacat=" ++ quote_plus (str category) ++ "&LH_BIN=1".
Proof. reflexivity. Qed.

Lemma build_url_inj (t1 t2 : string) (c1 c2 : Z) :
  build_url t1 c1 = build_url t2 c2 -> t1 = t2 /\ c1 = c2.
Proof.
  rewrite !build_url_shape. intros H. apply append_inv_head in H.
  change ("&_sacat=" ++ quote_plus (str c1) ++ "&LH_BIN=1")
    with (String "&" ("_sacat=" ++ quote_plus (str c1) ++ "&LH_BIN=1")) in H.
  change ("&_sacat=" ++ quote_plus (str c2) ++ "&LH_BIN=1")
    with (String "&" ("_sacat=" ++ quote_plus (str c2) ++ "&LH_BIN=1")) in H.
  apply cut_at in H as [Ht H]; try apply quote_plus_plain.
  apply append_inv_head in H.
  change ("&LH_BIN=1") with (String "&" "LH_BIN=1") in H.
  apply cut_at in H as [Hc _]; try apply quote_plus_plain.
  split; [now apply quote_plus_inj | now apply str_inj, quote_plus_inj].
Qed.

Lemma distinct_NoDup (l : list string) : distinct l = true -> NoDup l.
Proof.
  induction l as [|x l IH]; cbn [distinct]; intros H; [constructor|].
  apply andb_true_iff in H as [Hx Hl]. constructor; [|auto].
  intros Hin. apply negb_true_iff in Hx.
  assert (existsb (String.eqb x) l = true); [|congruence].
  apply existsb_exists. exists x. split; [assumption | apply String.eqb_refl].
Qed.

Lemma urls_of_NoDup (terms : list string) :
  NoDup terms ->
  NoDup (urls_of terms) /\ List.length (urls_of terms) = (2 * List.length terms)%nat.
Proof.
  intros Hnd. unfold urls_of, CATEGORIES. cbn [flat_map]. rewrite List.app_nil_r.
  split.
  - apply NoDup_app.
    + apply Finite.Injective_map_NoDup; [|assumption].
      intros a b E. now apply build_url_inj in E.
    + apply Finite.Injective_map_NoDup; [|assumption].
      intros a b E. now apply build_url_inj in E.
    + intros u H1 H2. apply in_map_iff in H1 as (a & <- & _).
      apply in_map_iff in H2 as (b & E & _). apply build_url_inj in E as [_ E].
      discriminate.
  - rewrite List.length_app, !length_map. lia.
Qed.

End UrlFacts.

(** X12.  [build_url] keeps searches apart: two urls are equal only for the
    same term and the same category.  The url is the fixed prefix followed
    by the quoted term, the category and the buy-it-now flag; it holds no
    space, and the term can be read back from its quoted form. *)
Theorem build_url_keeps_searches_apart (t1 t2 : string) (c1 c2 : Z) :
  (build_url t1 c1 = build_url t2 c2 -> t1 = t2 /\ c1 = c2) /\
  build_url t1 c1 =
    "https://www.ebay.co.uk/sch/i.html?LH_Lots=1&LH_PrefLoc=2&LH_AvailTo=3&_nkw="
    ++ Url.quote_plus t1 ++ "&_sacat=" ++ Url.str c1 ++ "&LH_BIN=1" /\
  lacks " " (build_url t1 c1) = true /\
  unquote_plus (Url.quote_plus t1) = t1.
Proof.
  assert (Hstr : Url.quote_plus (Url.str c1) = Url.str c1).
  { unfold Url.str. destruct c1 as [|p|p]; cbn [Z.to_int NilEmpty.string_of_int].
    - reflexivity.
    - generalize (Pos.to_uint p). intros d.
      induction d; cbn [NilEmpty.string_of_uint Url.quote_plus]; try rewrite IHd;
        reflexivity.
    - change (Url.quote_plus (String "-" (NilEmpty.string_of_uint (Pos.to_uint p))))
        with (String "-" (Url.quote_plus (NilEmpty.string_of_uint (Pos.to_uint p)))).
      f_equal. generalize (Pos.to_uint p). intros d.
      induction d; cbn [NilEmpty.string_of_uint Url.quote_plus]; try rewrite IHd;
        reflexivity. }
  split; [apply build_url_inj|]. split; [|split].
  - rewrite build_url_shape. now rewrite Hstr.
  - rewrite build_url_shape, !lacks_app.
    destruct (quote_plus_plain t1) as (_ & -> & _).
    destruct (quote_plus_plain (Url.str c1)) as (_ & -> & _).
    reflexivity.
  - apply quote_plus_read.
Qed.

(** One url compared with itself. *)
Lemma build_url_keeps_searches_apart_witness : "camera lot" = "camera lot" /\ 625 = 625.
Proof.
  apply (proj1 (build_url_keeps_searches_apart "camera lot" "camera lot" 625 625)).
  reflexivity.
Defined.

(** X13.  Whatever the clock reads, the run has its urls: the lookup of the
    group does not raise, no url stands twice in the list, and there are
    between 20 and 36 of them, two per term of the group. *)
Theorem run_urls_are_distinct (now : Q) :
  exists terms,
    group_terms (pick_group now) = Py.Ok terms /\
    run_urls now = Py.Ok (urls_of terms) /\
    NoDup (urls_of terms) /\
    List.length (urls_of terms) = (2 * List.length terms)%nat /\
    (20 <= List.length (urls_of terms) <= 36)%nat.
Proof.
  assert (Hall : Forall (fun g => distinct g = true /\ (10 <= List.length g <= 18)%nat)
                   SEARCH_GROUPS).
  { repeat constructor; vm_compute; congruence. }
  destruct (rotation_group_exists now) as (terms & E & Hin).
  exists terms. unfold run_urls. rewrite E. cbn [Py.bind].
  destruct (proj1 (Forall_forall _ _) Hall terms Hin) as [Hd Hlen].
  destruct (urls_of_NoDup terms (distinct_NoDup _ Hd)) as [Hnd Hl].
  repeat split; try assumption; lia.
Qed.

Section FetchFacts.
Import Fetch.

Lemma before_lacks (c : ascii) (s : string) : lacks c (before c s) = true.
Proof.
  induction s as [|a s IH]; [reflexivity|]. cbn [before].
  destruct (Ascii.eqb a c) eqn:E; [reflexivity|]. cbn [lacks]. now rewrite E, IH.
Qed.

Lemma before_cut (c : ascii) (base rest : string) :
  lacks c base = true -> before c (base ++ String c rest) = base.
Proof.
  induction base as [|a base IH]; cbn [append before lacks]; intros H.
  - now rewrite Ascii.eqb_refl.
  - apply andb_true_iff in H as [Ha Hb]. apply negb_true_iff in Ha.
    now rewrite Ha, IH.
Qed.

Lemma before_whole (c : ascii) (s : string) : lacks c s = true -> before c s = s.
Proof.
  induction s as [|a s IH]; cbn [before lacks]; intros H; [reflexivity|].
  apply andb_true_iff in H as [Ha Hb]. apply negb_true_iff in Ha.
  now rewrite Ha, IH.
Qed.

Lemma item_of_inv (li : element) (it : Listing) :
  item_of li = Some it ->
  (6 <= String.length (it_title it))%nat /\
  lower (it_title it) <> "shop on ebay" /\ lower (it_title it) <> "sponsored" /\
  it_id it = it_link it /\ lacks "?" (it_id it) = true /\
  exists href,
    el_link li = Some href /\ el_title li = Some (it_title it) /\
    el_price li = Some (it_price it) /\
    it_link it = before "?" (match href with Some h => h | None => "" end).
Proof.
  unfold item_of.
  destruct (el_link li) as [href|]; [|discriminate].
  destruct (el_title li) as [title|]; [|discriminate].
  destruct (el_price li) as [price|]; [|discriminate].
  destruct (Nat.ltb (String.length title) 6) eqn:E1; [discriminate|].
  destruct (String.eqb (lower title) "shop on ebay") eqn:E2; [discriminate|].
  destruct (String.eqb (lower title) "sponsored") eqn:E3; [discriminate|].
  cbn [orb]. intros H. inversion H; subst. cbn [it_title it_id it_link it_price].
  apply Nat.ltb_ge in E1. apply String.eqb_neq in E2, E3.
  repeat split; try assumption; [apply before_lacks|].
  exists href. auto.
Qed.

Lemma items_of_inv (lis : list element) (it : Listing) :
  In it (items_of lis) -> exists li, In li lis /\ item_of li = Some it.
Proof.
  induction lis as [|li lis IH]; cbn [items_of]; [intros []|].
  destruct (item_of li) as [x|] eqn:E.
  - intros [Hx|H].
    + subst x. exists li. split; [now left | assumption].
    + destruct (IH H) as (li' & Hin & E'). exists li'. split; [now right | assumption].
  - intros H. destruct (IH H) as (li' & Hin & E'). exists li'.
    split; [now right | assumption].
Qed.

Lemma items_of_length (lis : list element) :
  (List.length (items_of lis) <= List.length lis)%nat.
Proof.
  induction lis as [|li lis IH]; cbn [items_of List.length]; [lia|].
  destruct (item_of li); cbn [List.length]; lia.
Qed.

End FetchFacts.

(** X14.  What [fetch_search] returns: at most one item per element, each
    from an element that has a link, a title and a price; its title has at
    least 6 characters and is neither "Shop on eBay" nor "Sponsored" in any
    case of letters; its id is its link, the [href] of the element up to the
    first question mark (the empty text when there is no [href]). *)
Theorem fetched_items_are_clean (lis : list Fetch.element) :
  (List.length (Fetch.items_of lis) <= List.length lis)%nat /\
  forall it, In it (Fetch.items_of lis) ->
    (6 <= String.length (it_title it))%nat /\
    lower (it_title it) <> "shop on ebay" /\ lower (it_title it) <> "sponsored" /\
    it_id it = it_link it /\ lacks "?" (it_id it) = true /\
    exists li href,
      In li lis /\ Fetch.el_link li = Some href /\
      Fetch.el_title li = Some (it_title it) /\
      Fetch.el_price li = Some (it_price it) /\
      it_link it = Fetch.before "?" (match href with Some h => h | None => "" end).
Proof.
  split; [apply items_of_length|].
  intros it Hin. apply items_of_inv in Hin as (li & Hli & E).
  destruct (item_of_inv li it E) as (H1 & H2 & H3 & H4 & H5 & href & H6).
  repeat split; try assumption. exists li, href. tauto.
Qed.

(** X15.  The query string of a link does not count: links that differ
    after the first question mark give the same id, and of two such items
    met in a run only the first one is scored. *)
Theorem query_string_is_dropped
    (base q1 q2 title1 title2 price1 price2 : string) (seen : Py.pyset) :
  lacks "?" base = true ->
  forall it1 it2,
    Fetch.item_of {| Fetch.el_link := Some (Some (base ++ String "?" q1));
                     Fetch.el_title := Some title1;
                     Fetch.el_price := Some price1 |} = Some it1 ->
    Fetch.item_of {| Fetch.el_link := Some (Some (base ++ String "?" q2));
                     Fetch.el_title := Some title2;
                     Fetch.el_price := Some price2 |} = Some it2 ->
    it_id it1 = base /\ it_id it2 = base /\
    fresh seen [it1; it2] = fresh seen [it1].
Proof.
  intros Hbase it1 it2 H1 H2.
  apply item_of_inv in H1 as (_ & _ & _ & E1 & _ & href1 & L1 & _ & _ & B1).
  apply item_of_inv in H2 as (_ & _ & _ & E2 & _ & href2 & L2 & _ & _ & B2).
  cbn [Fetch.el_link] in L1, L2. inversion L1; subst href1. inversion L2; subst href2.
  rewrite (before_cut "?" base q1 Hbase) in B1.
  rewrite (before_cut "?" base q2 Hbase) in B2.
  assert (I1 : it_id it1 = base) by congruence.
  assert (I2 : it_id it2 = base) by congruence.
  split; [assumption|]. split; [assumption|].
  cbn [fresh]. rewrite I1, I2.
  destruct (Py.mem (Py.VStr base) seen) eqn:E; [reflexivity|].
  replace (Py.mem (Py.VStr base) (Py.add (Py.VStr base) seen)) with true; [reflexivity|].
  symmetry. apply PyFacts.mem_str, PyFacts.add_here.
Qed.

(** Two elements for the same item, reached through different searches. *)
Lemma query_string_is_dropped_witness :
  it_id (item 1 "Canon camera lot") = link_of 1 /\
  it_id (item 1 "Canon camera lot") = link_of 1 /\
  fresh [] [item 1 "Canon camera lot"; item 1 "Canon camera lot"]
  = fresh [] [item 1 "Canon camera lot"].
Proof.
  apply (query_string_is_dropped (link_of 1) "hash=a" "hash=b"
           "Canon camera lot" "Canon camera lot" "10.00" "10.00" []);
    reflexivity.
Defined.

(** One element of each kind. *)
Lemma fetched_items_are_clean_witness :
  (6 <= String.length "Canon camera lot")%nat /\
  lower "Canon camera lot" <> "shop on ebay" /\ lower "Canon camera lot" <> "sponsored".
Proof.
  pose (lis := [ {| Fetch.el_link := Some (Some "https://www.ebay.co.uk/itm/1?hash=a");
                    Fetch.el_title := Some "Canon camera lot";
                    Fetch.el_price := Some "10.00" |};
                 {| Fetch.el_link := Some None; Fetch.el_title := Some "Sponsored";
                    Fetch.el_price := Some "1.00" |};
                 {| Fetch.el_link := None; Fetch.el_title := Some "Nikon film camera";
                    Fetch.el_price := None |} ]).
  destruct (proj2 (fetched_items_are_clean lis) (item 1 "Canon camera lot"))
    as (H1 & H2 & H3 & _).
  - vm_compute. now left.
  - exact (conj H1 (conj H2 H3)).
Defined.

(** ** The rules of [extract_qty], in their order *)



